(** * povmap: arrow geometry, history store and generation route

    A shallow embedding of the parts of the povmap sources that the
    specification makes claims about, followed by the properties:

    - [Geometry]: the arrow overlay and the click bearing of the two
      map views ([drawOverlay], [onMapClick]);
    - [Js]: the values of the language and the functions of the engine
      that the sources call ([JSON.stringify], [JSON.parse], string and
      number methods, base64);
    - [Types]: the types of the application and their object literals;
    - [Storage], [UseHistory]: the history store ([utils/storage]) and
      the hook over it ([hooks/useHistory]);
    - [Route]: the handler [POST] of [/api/generate] with its two
      attempts and its mock mode;
    - [MapView]: the request that the view sends to the route.

    Numbers of the geometry are real numbers: the double arithmetic of
    the browser is idealised, without rounding.  Numbers that travel
    through JSON are exact decimals [m * 10^e], which cover every finite
    double, next to [NaN] and the two infinities.  Strings are sequences
    of 8-bit characters.  Code that may throw returns a [Res]; the
    handler of the route also logs the calls that leave it. *)

From Stdlib Require Import Reals Lra Lia ZArith NArith List String Ascii.
From Stdlib Require Import Decimal DecimalFacts DecimalPos DecimalN.
From stdpp Require Import gmap strings.
Import ListNotations.
Set Warnings "-register-all".

(** ** Geometry of the map view *)

Module Geometry.
Local Open Scope R_scope.

(** The arrow as the views read it, its numbers as reals. *)
Record ArrowSelection := mkArrow {
  latitude : R;
  longitude : R;
  bearingDeg : R;      (* 0..360, 0 is north, clockwise *)
  lengthMeters : R
}.

Record LngLat := mkLngLat { lng : R; lat : R }.
Record Point := mkPoint { x : R; y : R }.

(** What the 2D context receives, in call order. *)
Inductive CanvasOp :=
| save | restore
| lineWidth (w : R) | strokeStyle (s : string) | fillStyle (s : string)
| lineCap (s : string)
| beginPath | moveTo (px py : R) | lineTo (px py : R)
| stroke | closePath | fill.

(** [Math.atan2 y x], by the quadrant of [(x, y)]. *)
Definition Math_atan2 (y x : R) : R :=
  if Rlt_dec 0 x then atan (y / x)
  else if Rlt_dec x 0 then
         (if Rle_dec 0 y then atan (y / x) + PI else atan (y / x) - PI)
  else if Rlt_dec 0 y then PI / 2
  else if Rlt_dec y 0 then - PI / 2
  else 0.

(** Truncation towards zero, and the remainder [n % d] of JavaScript,
    which takes the sign of the dividend. *)
Definition trunc (r : R) : Z :=
  if Rle_dec 0 r then Int_part r else (- Int_part (- r))%Z.

Definition js_rem (n d : R) : R := n - d * IZR (trunc (n / d)).

Definition Math_min (a b : R) : R := Rmin a b.

(** [onMapClick] of the view that derives the bearing from the click:
    the new value of the [arrow] state ([map] is [None] while the map
    is not mounted, and the click is then ignored). *)
Definition click_bearing (center clickLngLat : LngLat) : R :=
  let bearing :=
    Math_atan2
      ((lng clickLngLat - lng center) * cos ((lat center * PI) / 180))
      (lat clickLngLat - lat center) in
  js_rem ((bearing * 180) / PI + 360) 360.

Definition onMapClick (map : option LngLat) (clickLngLat : LngLat)
    (arrow : option ArrowSelection) : option ArrowSelection :=
  match map with
  | None => arrow
  | Some center =>
      let bearingDeg := click_bearing center clickLngLat in
      Some {| latitude := lat clickLngLat;
              longitude := lng clickLngLat;
              bearingDeg := bearingDeg;
              lengthMeters := 150 |}
  end.

(** The drawing shared by both views, from the origin on. *)
Definition lengthPx (width height : R) : R := Math_min width height * 0.25.
Definition headLen : R := 12.
Definition headAngle : R := PI / 8.

Definition draw_arrow (origin : Point) (bearingDeg width height : R)
  : list CanvasOp :=
  let angle := (bearingDeg * PI) / 180 in
  let lengthPx := lengthPx width height in
  let endX := x origin + sin angle * lengthPx in
  let endY := y origin - cos angle * lengthPx in
  let leftX := endX - headLen * sin (angle - headAngle) in
  let leftY := endY + headLen * cos (angle - headAngle) in
  let rightX := endX - headLen * sin (angle + headAngle) in
  let rightY := endY + headLen * cos (angle + headAngle) in
  [ save; lineWidth 4; strokeStyle "#ef4444"; fillStyle "#ef4444";
    lineCap "round";
    beginPath; moveTo (x origin) (y origin); lineTo endX endY; stroke;
    beginPath; moveTo endX endY; lineTo leftX leftY; lineTo rightX rightY;
    closePath; fill;
    restore ].

(** [drawOverlay] of the view that anchors the arrow at the canvas
    centre. *)
Definition drawOverlay_center (arrow : option ArrowSelection)
    (width height : R) : list CanvasOp :=
  match arrow with
  | None => []
  | Some arrow =>
      let centerX := width / 2 in
      let centerY := height / 2 in
      draw_arrow (mkPoint centerX centerY) (bearingDeg arrow) width height
  end.

(** [drawOverlay] of the view that anchors the arrow at the projected
    click position; [map] carries [map.project]. *)
Definition drawOverlay (map : option (R * R -> Point))
    (arrow : option ArrowSelection) (width height : R) : list CanvasOp :=
  match map, arrow with
  | Some project, Some arrow =>
      let origin := project (longitude arrow, latitude arrow) in
      draw_arrow origin (bearingDeg arrow) width height
  | _, _ => []
  end.

Definition dist (p q : Point) : R :=
  sqrt (Rsqr (x q - x p) + Rsqr (y q - y p)).

End Geometry.

(** ** JavaScript values and the JSON codec of the engine *)

Module Js.

Inductive JsNum :=
| Finite (m e : Z)      (* the number m * 10^e *)
| NaN
| Infinity
| NegInfinity.

(** Runtime values: what a variable of the program may hold. *)
Inductive JsVal :=
| VUndefined
| VNull
| VBool (b : bool)
| VNum (n : JsNum)
| VStr (s : string)
| VArr (l : list JsVal)
| VObj (props : list (string * JsVal)).

(** What a JSON text denotes.  An object keeps its members in text
    order; a property read takes the last member of that name. *)
Inductive Json :=
| JNull
| JBool (b : bool)
| JNum (m e : Z)
| JStr (s : string)
| JArr (l : list Json)
| JObj (members : list (string * Json)).

(** Thrown values: all are instances of the class Error and carry a
    message. *)
Inductive Exn :=
| TypeError (message : string)
| SyntaxError (message : string)
| Error (message : string).

Definition message (e : Exn) : string :=
  match e with TypeError m | SyntaxError m | Error m => m end.

Inductive Res (A : Type) :=
| Ok (a : A)
| Throw (e : Exn).
Arguments Ok {A} a.
Arguments Throw {A} e.

#[export] Instance Res_ret : MRet Res := fun A a => Ok a.
#[export] Instance Res_bind : MBind Res := fun A B k r =>
  match r with Ok a => k a | Throw e => Throw e end.

(** [try { body } catch { handler }] *)
Definition try_catch {A} (body : Res A) (handler : Exn -> Res A) : Res A :=
  match body with Ok a => Ok a | Throw e => handler e end.

Fixpoint of_json (j : Json) : JsVal :=
  match j with
  | JNull => VNull
  | JBool b => VBool b
  | JNum m e => VNum (Finite m e)
  | JStr s => VStr s
  | JArr l => VArr (map of_json l)
  | JObj ms => VObj (map (fun kv => (fst kv, of_json (snd kv))) ms)
  end.

(** The value part of [JSON.stringify]: [None] is the result
    [undefined]; inside an array [undefined] becomes [null], inside an
    object the property is left out; a number that is not finite
    becomes [null]. *)
Fixpoint toJSON (v : JsVal) : option Json :=
  match v with
  | VUndefined => None
  | VNull => Some JNull
  | VBool b => Some (JBool b)
  | VNum (Finite m e) => Some (JNum m e)
  | VNum _ => Some JNull
  | VStr s => Some (JStr s)
  | VArr l =>
      Some (JArr (map (fun x => match toJSON x with
                                | Some j => j
                                | None => JNull
                                end) l))
  | VObj ps =>
      Some (JObj (flat_map (fun kv => match toJSON (snd kv) with
                                      | Some j => [(fst kv, j)]
                                      | None => []
                                      end) ps))
  end.

(** *** Text of a JSON value *)

Definition dquote : ascii := "034"%char.
Definition backslash : ascii := "092"%char.

Definition hex_char (n : N) : ascii :=
  if (n <? 10)%N then ascii_of_N (48 + n) else ascii_of_N (87 + n).

Definition escape_char (c : ascii) : string :=
  if Ascii.eqb c dquote then String backslash (String dquote "")
  else if Ascii.eqb c backslash then String backslash (String backslash "")
  else if Ascii.eqb c "008" then String backslash "b"
  else if Ascii.eqb c "012" then String backslash "f"
  else if Ascii.eqb c "010" then String backslash "n"
  else if Ascii.eqb c "013" then String backslash "r"
  else if Ascii.eqb c "009" then String backslash "t"
  else if (N_of_ascii c <? 32)%N then
    String backslash
      (String "u" (String "0" (String "0"
        (String (hex_char (N_of_ascii c / 16))
           (String (hex_char (N_of_ascii c mod 16)) "")))))
  else String c "".

Fixpoint escape (s : string) : string :=
  match s with
  | EmptyString => ""
  | String c r => escape_char c +:+ escape r
  end.

Definition quote (s : string) : string :=
  String dquote (escape s +:+ String dquote "").

Fixpoint uint_chars (d : uint) : string :=
  match d with
  | Nil => ""
  | D0 d => String "0" (uint_chars d)
  | D1 d => String "1" (uint_chars d)
  | D2 d => String "2" (uint_chars d)
  | D3 d => String "3" (uint_chars d)
  | D4 d => String "4" (uint_chars d)
  | D5 d => String "5" (uint_chars d)
  | D6 d => String "6" (uint_chars d)
  | D7 d => String "7" (uint_chars d)
  | D8 d => String "8" (uint_chars d)
  | D9 d => String "9" (uint_chars d)
  end.

Definition render_N (n : N) : string := uint_chars (N.to_uint n).

Definition render_Z (z : Z) : string :=
  match z with
  | Zneg p => String "-" (render_N (Npos p))
  | _ => render_N (Z.to_N z)
  end.

(** The literal of the number [m * 10^e]: the digits of [m], and the
    exponent where it is not zero.  The engine writes the shortest
    decimal of the same number; both are literals that [JSON.parse]
    reads as that number. *)
Definition render_number (m e : Z) : string :=
  render_Z m +:+ (if (e =? 0)%Z then "" else String "e" (render_Z e)).

Fixpoint join_comma (l : list string) : string :=
  match l with
  | [] => ""
  | s :: r => s +:+ match r with
                    | [] => ""
                    | _ => String "," (join_comma r)
                    end
  end.

Fixpoint render (j : Json) : string :=
  match j with
  | JNull => "null"
  | JBool true => "true"
  | JBool false => "false"
  | JNum m e => render_number m e
  | JStr s => quote s
  | JArr l => String "[" (join_comma (map render l) +:+ "]")
  | JObj ms =>
      String "{"
        (join_comma (map (fun kv => quote (fst kv) +:+ String ":" (render (snd kv))) ms)
         +:+ "}")
  end.

(** *** Reading a JSON text *)

Definition is_ws (c : ascii) : bool :=
  Ascii.eqb c " " || Ascii.eqb c "009" || Ascii.eqb c "010" || Ascii.eqb c "013".

Fixpoint skip_ws (s : string) : string :=
  match s with
  | String c r => if is_ws c then skip_ws r else s
  | EmptyString => s
  end.

Definition digit_of_char (c : ascii) : option (uint -> uint) :=
  if Ascii.eqb c "0" then Some D0
  else if Ascii.eqb c "1" then Some D1
  else if Ascii.eqb c "2" then Some D2
  else if Ascii.eqb c "3" then Some D3
  else if Ascii.eqb c "4" then Some D4
  else if Ascii.eqb c "5" then Some D5
  else if Ascii.eqb c "6" then Some D6
  else if Ascii.eqb c "7" then Some D7
  else if Ascii.eqb c "8" then Some D8
  else if Ascii.eqb c "9" then Some D9
  else None.

(** The longest run of digits at the head of [s]. *)
Fixpoint read_uint (s : string) : uint * string :=
  match s with
  | String c r =>
      match digit_of_char c with
      | Some d => let '(u, r') := read_uint r in (d u, r')
      | None => (Nil, s)
      end
  | EmptyString => (Nil, s)
  end.

Definition hex_val (c : ascii) : option N :=
  let n := N_of_ascii c in
  if ((48 <=? n) && (n <=? 57))%N then Some (n - 48)%N
  else if ((97 <=? n) && (n <=? 102))%N then Some (n - 87)%N
  else if ((65 <=? n) && (n <=? 70))%N then Some (n - 55)%N
  else None.

(** [\uXXXX]: a code unit above 255 has no character in this model. *)
Definition unicode_escape (h3 h2 h1 h0 : ascii) : option ascii :=
  match hex_val h3, hex_val h2, hex_val h1, hex_val h0 with
  | Some a, Some b, Some c, Some d =>
      if ((a =? 0) && (b =? 0))%N then Some (ascii_of_N (16 * c + d)) else None
  | _, _, _, _ => None
  end.

Definition simple_escape (e : ascii) : option ascii :=
  if Ascii.eqb e dquote then Some dquote
  else if Ascii.eqb e backslash then Some backslash
  else if Ascii.eqb e "/" then Some "/"%char
  else if Ascii.eqb e "b" then Some "008"%char
  else if Ascii.eqb e "f" then Some "012"%char
  else if Ascii.eqb e "n" then Some "010"%char
  else if Ascii.eqb e "r" then Some "013"%char
  else if Ascii.eqb e "t" then Some "009"%char
  else None.

(** The characters of a string literal, after its opening quote. *)
Fixpoint parse_chars (s : string) : option (string * string) :=
  match s with
  | EmptyString => None
  | String c r =>
      if Ascii.eqb c dquote then Some ("", r)
      else if Ascii.eqb c backslash then
        match r with
        | String e r1 =>
            if Ascii.eqb e "u" then
              match r1 with
              | String h3 (String h2 (String h1 (String h0 r2))) =>
                  match unicode_escape h3 h2 h1 h0 with
                  | Some ch =>
                      match parse_chars r2 with
                      | Some (t, r') => Some (String ch t, r')
                      | None => None
                      end
                  | None => None
                  end
              | _ => None
              end
            else
              match simple_escape e with
              | Some ch =>
                  match parse_chars r1 with
                  | Some (t, r') => Some (String ch t, r')
                  | None => None
                  end
              | None => None
              end
        | EmptyString => None
        end
      else if (N_of_ascii c <? 32)%N then None
      else
        match parse_chars r with
        | Some (t, r') => Some (String c t, r')
        | None => None
        end
  end.

Definition signed (neg : bool) (n : N) : Z :=
  if neg then (- Z.of_N n)%Z else Z.of_N n.

(** [-? int frac? exp?]; the value is [m * 10^e] with the fraction
    digits moved into [m]. *)
Definition read_sign (s : string) : bool * string :=
  match s with
  | String c r => if Ascii.eqb c "-" then (true, r) else (false, s)
  | EmptyString => (false, s)
  end.

Definition read_exp_sign (s : string) : bool * string :=
  match s with
  | String c r =>
      if Ascii.eqb c "-" then (true, r)
      else if Ascii.eqb c "+" then (false, r)
      else (false, s)
  | EmptyString => (false, s)
  end.

(** No integer part, or a zero in front of more digits. *)
Definition bad_int (ip : uint) : bool :=
  match ip with
  | Nil => true
  | D0 Nil => false
  | D0 _ => true
  | _ => false
  end.

Definition is_nil (u : uint) : bool :=
  match u with Nil => true | _ => false end.

Definition read_frac (s : string) : option (option uint * string) :=
  match s with
  | String c r =>
      if Ascii.eqb c "." then
        let '(fp, r') := read_uint r in
        if is_nil fp then None else Some (Some fp, r')
      else Some (None, s)
  | EmptyString => Some (None, s)
  end.

Definition read_exp (s : string) : option (Z * string) :=
  match s with
  | String c r =>
      if Ascii.eqb c "e" || Ascii.eqb c "E" then
        let '(eneg, r1) := read_exp_sign r in
        let '(ep, r2) := read_uint r1 in
        if is_nil ep then None else Some (signed eneg (N.of_uint ep), r2)
      else Some (0%Z, s)
  | EmptyString => Some (0%Z, s)
  end.

Definition parse_number (s : string) : option (Z * Z * string) :=
  let '(neg, s1) := read_sign s in
  let '(ip, s2) := read_uint s1 in
  if bad_int ip then None
  else
    match read_frac s2 with
    | None => None
    | Some (fp, s3) =>
        match read_exp s3 with
        | None => None
        | Some (ex, s4) =>
            let digits := match fp with Some f => Decimal.app ip f | None => ip end in
            let shift := match fp with Some f => Z.of_nat (nb_digits f) | None => 0%Z end in
            Some (signed neg (N.of_uint digits), (ex - shift)%Z, s4)
        end
    end.

(** The rest of [s] after the text [lit], where [s] starts with it. *)
Fixpoint expect (lit : string) (s : string) : option string :=
  match lit with
  | EmptyString => Some s
  | String c l =>
      match s with
      | String c' r => if Ascii.eqb c c' then expect l r else None
      | EmptyString => None
      end
  end.

Fixpoint parse_value (fuel : nat) (s : string) : option (Json * string) :=
  match fuel with
  | O => None
  | S fuel =>
      match skip_ws s with
      | EmptyString => None
      | String c r =>
          if Ascii.eqb c "n" then
            match expect "ull" r with Some r' => Some (JNull, r') | None => None end
          else if Ascii.eqb c "t" then
            match expect "rue" r with Some r' => Some (JBool true, r') | None => None end
          else if Ascii.eqb c "f" then
            match expect "alse" r with Some r' => Some (JBool false, r') | None => None end
          else if Ascii.eqb c dquote then
            match parse_chars r with
            | Some (str, r') => Some (JStr str, r')
            | None => None
            end
          else if Ascii.eqb c "[" then
            match skip_ws r with
            | String c' r' =>
                if Ascii.eqb c' "]" then Some (JArr [], r')
                else match parse_elements fuel r with
                     | Some (l, r'') => Some (JArr l, r'')
                     | None => None
                     end
            | EmptyString => None
            end
          else if Ascii.eqb c "{" then
            match skip_ws r with
            | String c' r' =>
                if Ascii.eqb c' "}" then Some (JObj [], r')
                else match parse_members fuel r with
                     | Some (ms, r'') => Some (JObj ms, r'')
                     | None => None
                     end
            | EmptyString => None
            end
          else
            match parse_number (String c r) with
            | Some (m, e, r') => Some (JNum m e, r')
            | None => None
            end
      end
  end
with parse_elements (fuel : nat) (s : string) : option (list Json * string) :=
  match fuel with
  | O => None
  | S fuel =>
      match parse_value fuel s with
      | None => None
      | Some (v, r) =>
          match skip_ws r with
          | String c r' =>
              if Ascii.eqb c "," then
                match parse_elements fuel r' with
                | Some (vs, r'') => Some (v :: vs, r'')
                | None => None
                end
              else if Ascii.eqb c "]" then Some ([v], r')
              else None
          | EmptyString => None
          end
      end
  end
with parse_members (fuel : nat) (s : string) : option (list (string * Json) * string) :=
  match fuel with
  | O => None
  | S fuel =>
      match skip_ws s with
      | String q r =>
          if Ascii.eqb q dquote then
            match parse_chars r with
            | None => None
            | Some (k, r1) =>
                match skip_ws r1 with
                | String colon r2 =>
                    if Ascii.eqb colon ":" then
                      match parse_value fuel r2 with
                      | None => None
                      | Some (v, r3) =>
                          match skip_ws r3 with
                          | String c r' =>
                              if Ascii.eqb c "," then
                                match parse_members fuel r' with
                                | Some (ms, r'') => Some ((k, v) :: ms, r'')
                                | None => None
                                end
                              else if Ascii.eqb c "}" then Some ([(k, v)], r')
                              else None
                          | EmptyString => None
                          end
                      end
                    else None
                | EmptyString => None
                end
            end
          else None
      | EmptyString => None
      end
  end.

(** A whole text: one value, then only white space. *)
Definition parse (s : string) : option Json :=
  match parse_value (S (String.length s)) s with
  | Some (j, r) => match skip_ws r with EmptyString => Some j | _ => None end
  | None => None
  end.

(** [JSON.stringify v]: [None] is the result [undefined]. *)
Definition JSON_stringify (v : JsVal) : option string :=
  match toJSON v with Some j => Some (render j) | None => None end.

(** [JSON.parse s], which throws a SyntaxError on a text that is not
    JSON. *)
Definition JSON_parse (s : string) : Res JsVal :=
  match parse s with
  | Some j => Ok (of_json j)
  | None => Throw (SyntaxError "Unexpected token in JSON")
  end.

(** [String(x)] of the result of [JSON.stringify]. *)
Definition item_text (o : option string) : string :=
  match o with Some s => s | None => "undefined" end.

(** The copy of an array element [v] that a trip through JSON text
    gives back. *)
Definition stored_copy (v : JsVal) : JsVal :=
  match toJSON v with Some j => of_json j | None => VNull end.

(** The last property of a name in a list of properties. *)
Fixpoint find_prop (k : string) (ps : list (string * JsVal)) : option JsVal :=
  match ps with
  | [] => None
  | (k', v) :: r =>
      match find_prop k r with
      | Some w => Some w
      | None => if String.eqb k k' then Some v else None
      end
  end.

Definition lookup_prop (k : string) (ps : list (string * JsVal)) : JsVal :=
  match find_prop k ps with Some v => v | None => VUndefined end.

Definition cannot_read (what k : string) : Exn :=
  TypeError ("Cannot read properties of " +:+ what +:+ " (reading '" +:+ k +:+ "')").

(** Property read [v.k]: a TypeError on [undefined] and [null],
    [undefined] where the value has no such property. *)
Definition get_prop (v : JsVal) (k : string) : Res JsVal :=
  match v with
  | VUndefined => Throw (cannot_read "undefined" k)
  | VNull => Throw (cannot_read "null" k)
  | VObj ps => Ok (lookup_prop k ps)
  | _ => Ok VUndefined
  end.

(** [v !== s] for a string [s]. *)
Definition strict_neq_str (v : JsVal) (s : string) : bool :=
  match v with
  | VStr t => negb (String.eqb t s)
  | _ => true
  end.

(** [l.filter(p)] with a callback that may throw. *)
Fixpoint filterM (p : JsVal -> Res bool) (l : list JsVal) : Res (list JsVal) :=
  match l with
  | [] => Ok []
  | v :: r =>
      b ← p v;
      r' ← filterM p r;
      Ok (if b : bool then v :: r' else r')
  end.

(** [s.slice(0, n)] *)
Fixpoint slice0 (n : nat) (s : string) : string :=
  match n, s with
  | S n', String c r => String c (slice0 n' r)
  | _, _ => ""
  end.

(** [s.replace(/c/g, by)] for a single character [c]. *)
Fixpoint replace_all (c : ascii) (by_ : string) (s : string) : string :=
  match s with
  | EmptyString => ""
  | String a r =>
      if Ascii.eqb a c then by_ +:+ replace_all c by_ r
      else String a (replace_all c by_ r)
  end.

(** The test of a value that is a string or [undefined]: the string
    where it is truthy, that is, not empty. *)
Definition truthy (o : option string) : option string :=
  match o with
  | Some s => if String.eqb s "" then None else Some s
  | None => None
  end.

(** [a || b] *)
Definition or_else (a b : option string) : option string :=
  match truthy a with Some s => Some s | None => b end.

(** [s.trim()] *)
Definition is_space (c : ascii) : bool :=
  is_ws c || Ascii.eqb c "011" || Ascii.eqb c "012" || Ascii.eqb c "160".

Fixpoint trim_start (s : string) : string :=
  match s with
  | String c r => if is_space c then trim_start r else s
  | EmptyString => s
  end.

Fixpoint trim_end (s : string) : string :=
  match s with
  | EmptyString => ""
  | String c r =>
      match trim_end r with
      | EmptyString => if is_space c then "" else String c ""
      | t => String c t
      end
  end.

Definition trim (s : string) : string := trim_end (trim_start s).

(** *** Numbers as text *)

Definition is_finite (n : JsNum) : bool :=
  match n with Finite _ _ => true | _ => false end.

Definition pow10 (k : Z) : Z := (10 ^ k)%Z.

Fixpoint zeros (n : nat) : string :=
  match n with O => "" | S n' => String "0" (zeros n') end.

(** [Math.round x]: the integer nearest to [x], ties upwards. *)
Definition Math_round (n : JsNum) : JsNum :=
  match n with
  | Finite m e =>
      if (0 <=? e)%Z then Finite (m * pow10 e) 0
      else Finite ((m + 5 * pow10 (- e - 1)) / pow10 (- e)) 0
  | _ => n
  end.

(** [String(x)] of a number: positional between 1e-6 and 1e21,
    exponent form outside. *)
Definition num_to_string (n : JsNum) : string :=
  match n with
  | NaN => "NaN"
  | Infinity => "Infinity"
  | NegInfinity => "-Infinity"
  | Finite m e =>
      if (m =? 0)%Z then "0"
      else
        let (sd, t) := Decimal.nztail (N.to_uint (Z.abs_N m)) in
        let digits := uint_chars sd in
        let k := String.length digits in
        let pos := (Z.of_nat k + Z.of_nat t + e)%Z in
        let body :=
          if ((Z.of_nat k <=? pos) && (pos <=? 21))%Z then
            digits +:+ zeros (Z.to_nat (pos - Z.of_nat k))
          else if ((0 <? pos) && (pos <=? 21))%Z then
            slice0 (Z.to_nat pos) digits +:+ "." +:+
            String.substring (Z.to_nat pos) (k - Z.to_nat pos) digits
          else if ((-6 <? pos) && (pos <=? 0))%Z then
            "0." +:+ zeros (Z.to_nat (- pos)) +:+ digits
          else
            let ex := (pos - 1)%Z in
            slice0 1 digits +:+
            (if (k =? 1)%nat then "" else "." +:+ String.substring 1 (k - 1) digits) +:+
            "e" +:+ (if (0 <=? ex)%Z then "+" else "-") +:+ render_N (Z.abs_N ex) in
        (if (m <? 0)%Z then "-" else "") +:+ body
  end.

(** [x.toFixed(d)] *)
Definition toFixed (d : nat) (n : JsNum) : string :=
  match n with
  | Finite m e =>
      let a := Z.abs m in
      let big :=
        if (0 <=? e)%Z then (pow10 21 <=? a * pow10 e)%Z
        else (pow10 (21 - e) <=? a)%Z in
      if big then num_to_string n
      else
        let sh := (e + Z.of_nat d)%Z in
        let scaled :=
          if (0 <=? sh)%Z then (a * pow10 sh)%Z
          else ((a + 5 * pow10 (- sh - 1)) / pow10 (- sh))%Z in
        let ds := render_N (Z.to_N scaled) in
        let padded := zeros (S d - String.length ds) +:+ ds in
        let k := String.length padded in
        (if (m <? 0)%Z then "-" else "") +:+
        (if (d =? 0)%nat then padded
         else slice0 (k - d) padded +:+ "." +:+ String.substring (k - d) d padded)
  | _ => num_to_string n
  end.

(** *** Bytes as text *)

(** The UTF-8 bytes of a string of 8-bit characters. *)
Fixpoint utf8 (s : string) : list N :=
  match s with
  | EmptyString => []
  | String c r =>
      let n := N_of_ascii c in
      if (n <? 128)%N then n :: utf8 r
      else (192 + n / 64)%N :: (128 + n mod 64)%N :: utf8 r
  end.

Definition b64_char (n : N) : ascii :=
  if (n <? 26)%N then ascii_of_N (65 + n)
  else if (n <? 52)%N then ascii_of_N (71 + n)
  else if (n <? 62)%N then ascii_of_N (n - 4)
  else if (n =? 62)%N then "+"%char
  else "/"%char.

(** [Buffer.from(bytes).toString("base64")] *)
Fixpoint base64 (bs : list N) : string :=
  match bs with
  | [] => ""
  | [a] =>
      String (b64_char (a / 4))
        (String (b64_char ((a mod 4) * 16)) "==")
  | [a; b] =>
      String (b64_char (a / 4))
        (String (b64_char ((a mod 4) * 16 + b / 16))
           (String (b64_char ((b mod 16) * 4)) "="))
  | a :: b :: c :: r =>
      String (b64_char (a / 4))
        (String (b64_char ((a mod 4) * 16 + b / 16))
           (String (b64_char ((b mod 16) * 4 + c / 64))
              (String (b64_char (c mod 64)) (base64 r))))
  end.

Definition unreserved (c : ascii) : bool :=
  let n := N_of_ascii c in
  ((65 <=? n) && (n <=? 90) || (97 <=? n) && (n <=? 122) || (48 <=? n) && (n <=? 57))%N
  || existsb (Ascii.eqb c) ["-"; "_"; "."; "!"; "~"; "*"; "'"; "("; ")"]%char.

Definition HEX_char (n : N) : ascii :=
  if (n <? 10)%N then ascii_of_N (48 + n) else ascii_of_N (55 + n).

Definition percent (b : N) : string :=
  String "%" (String (HEX_char (b / 16)) (String (HEX_char (b mod 16)) "")).

Fixpoint encodeURIComponent (s : string) : string :=
  match s with
  | EmptyString => ""
  | String c r =>
      (if unreserved c then String c ""
       else fold_right (fun b acc => percent b +:+ acc) "" (utf8 (String c "")))
      +:+ encodeURIComponent r
  end.

(** *** Measures and follow sets of the reader *)

Definition no_digit_head (s : string) : Prop :=
  match s with
  | String c _ => digit_of_char c = None
  | EmptyString => True
  end.

(** What may come after a number. *)
Definition number_follow (s : string) : Prop :=
  match s with
  | String c _ =>
      digit_of_char c = None /\ Ascii.eqb c "." = false
      /\ (Ascii.eqb c "e" || Ascii.eqb c "E") = false
  | EmptyString => True
  end.

(** What comes after a value that [render] wrote: the end of the text,
    a comma or a closing bracket. *)
Definition follow (s : string) : Prop :=
  match s with
  | String c _ => c = ","%char \/ c = "]"%char \/ c = "}"%char
  | EmptyString => True
  end.

(** The fuel that reading a value takes. *)
Fixpoint size (j : Json) : nat :=
  match j with
  | JArr l => S (fold_right (fun x n => S (size x + n)) 0 l)
  | JObj ms => S (fold_right (fun kv n => S (size (snd kv) + n)) 0 ms)
  | _ => 1
  end.

Definition size_elems (l : list Json) : nat :=
  fold_right (fun x n => S (size x + n)) 0 l.

Definition size_members (ms : list (string * Json)) : nat :=
  fold_right (fun kv n => S (size (snd kv) + n)) 0 ms.

Definition member_text (kv : string * Json) : string :=
  quote (fst kv) +:+ String ":" (render (snd kv)).

Definition reads_back (j : Json) : Prop :=
  forall fuel rest,
    size j <= fuel -> follow rest ->
    parse_value fuel (render j +:+ rest) = Some (j, rest).

(** Every single quote turned into a double quote: a way to write JSON
    texts as literals. *)
Fixpoint dq (s : string) : string :=
  match s with
  | EmptyString => ""
  | String c r => String (if Ascii.eqb c "'" then dquote else c) (dq r)
  end.

End Js.

(** ** The types of the application *)

Module Types.
Import Js.

Record Bounds := mkBounds {
  north : JsNum;
  south : JsNum;
  east : JsNum;
  west : JsNum
}.

Record ArrowSelection := mkArrow {
  latitude : JsNum;
  longitude : JsNum;
  bearingDeg : JsNum;     (* 0..360, 0 is north, clockwise *)
  lengthMeters : JsNum
}.

Record LatLng := mkLatLng { lat : JsNum; lng : JsNum }.

Record MapStateSnapshot := mkMapState {
  zoom : JsNum;
  center : LatLng;
  bounds : Bounds;
  style : string
}.

Record PovRequest := mkPovRequest {
  prompt : string;
  arrow : ArrowSelection;
  map : MapStateSnapshot
}.

Record PovResult := mkPovResult {
  id : string;
  createdAt : JsNum;                    (* epoch ms *)
  request : PovRequest;
  mapSnapshotDataUrl : string;          (* small preview of map *)
  imageDataUrl : string;                (* generated image (data url) *)
  model : option string;
  safetyLabels : option (list string)
}.

(** The object literals that the view builds for these types; an
    optional field that is not given holds [undefined]. *)
Definition js_opt {A} (f : A -> JsVal) (o : option A) : JsVal :=
  match o with Some a => f a | None => VUndefined end.

Definition js_bounds (b : Bounds) : JsVal :=
  VObj [("north", VNum (north b)); ("south", VNum (south b));
        ("east", VNum (east b)); ("west", VNum (west b))].

Definition js_arrow (a : ArrowSelection) : JsVal :=
  VObj [("latitude", VNum (latitude a)); ("longitude", VNum (longitude a));
        ("bearingDeg", VNum (bearingDeg a));
        ("lengthMeters", VNum (lengthMeters a))].

Definition js_map (m : MapStateSnapshot) : JsVal :=
  VObj [("zoom", VNum (zoom m));
        ("center", VObj [("latitude", VNum (lat (center m)));
                         ("longitude", VNum (lng (center m)))]);
        ("bounds", js_bounds (bounds m));
        ("style", VStr (style m))].

Definition js_request (r : PovRequest) : JsVal :=
  VObj [("prompt", VStr (prompt r)); ("arrow", js_arrow (arrow r));
        ("map", js_map (map r))].

Definition js_result (r : PovResult) : JsVal :=
  VObj [("id", VStr (id r));
        ("createdAt", VNum (createdAt r));
        ("request", js_request (request r));
        ("mapSnapshotDataUrl", VStr (mapSnapshotDataUrl r));
        ("imageDataUrl", VStr (imageDataUrl r));
        ("model", js_opt VStr (model r));
        ("safetyLabels", js_opt (fun l => VArr (List.map VStr l)) (safetyLabels r))].

(** Reading a value field by field at these types: [None] where a
    field does not hold a value of its declared type. *)
Definition field (v : JsVal) (k : string) : option JsVal :=
  match get_prop v k with Ok x => Some x | Throw _ => None end.

Definition as_str (v : JsVal) : option string :=
  match v with VStr s => Some s | _ => None end.

Definition as_num (v : JsVal) : option JsNum :=
  match v with VNum n => Some n | _ => None end.

Definition as_opt {A} (f : JsVal -> option A) (v : JsVal) : option (option A) :=
  match v with
  | VUndefined => Some None
  | _ => match f v with Some a => Some (Some a) | None => None end
  end.

Fixpoint as_strs (l : list JsVal) : option (list string) :=
  match l with
  | [] => Some []
  | v :: r =>
      match as_str v, as_strs r with
      | Some s, Some t => Some (s :: t)
      | _, _ => None
      end
  end.

Definition as_str_array (v : JsVal) : option (list string) :=
  match v with VArr l => as_strs l | _ => None end.

Definition read_bounds (v : JsVal) : option Bounds :=
  n ← field v "north" ≫= as_num;
  s ← field v "south" ≫= as_num;
  e ← field v "east" ≫= as_num;
  w ← field v "west" ≫= as_num;
  Some (mkBounds n s e w).

Definition read_arrow (v : JsVal) : option ArrowSelection :=
  la ← field v "latitude" ≫= as_num;
  lo ← field v "longitude" ≫= as_num;
  b ← field v "bearingDeg" ≫= as_num;
  l ← field v "lengthMeters" ≫= as_num;
  Some (mkArrow la lo b l).

Definition read_latlng (v : JsVal) : option LatLng :=
  la ← field v "latitude" ≫= as_num;
  lo ← field v "longitude" ≫= as_num;
  Some (mkLatLng la lo).

Definition read_map (v : JsVal) : option MapStateSnapshot :=
  z ← field v "zoom" ≫= as_num;
  c ← field v "center" ≫= read_latlng;
  b ← field v "bounds" ≫= read_bounds;
  s ← field v "style" ≫= as_str;
  Some (mkMapState z c b s).

Definition read_request (v : JsVal) : option PovRequest :=
  p ← field v "prompt" ≫= as_str;
  a ← field v "arrow" ≫= read_arrow;
  m ← field v "map" ≫= read_map;
  Some (mkPovRequest p a m).

Definition read_result (v : JsVal) : option PovResult :=
  i ← field v "id" ≫= as_str;
  c ← field v "createdAt" ≫= as_num;
  r ← field v "request" ≫= read_request;
  ms ← field v "mapSnapshotDataUrl" ≫= as_str;
  im ← field v "imageDataUrl" ≫= as_str;
  mo ← field v "model" ≫= as_opt as_str;
  sl ← field v "safetyLabels" ≫= as_opt as_str_array;
  Some (mkPovResult i c r ms im mo sl).

(** All numbers of a result are finite. *)
Definition finite_bounds (b : Bounds) : bool :=
  is_finite (north b) && is_finite (south b) && is_finite (east b) && is_finite (west b).

Definition finite_arrow (a : ArrowSelection) : bool :=
  is_finite (latitude a) && is_finite (longitude a)
  && is_finite (bearingDeg a) && is_finite (lengthMeters a).

Definition finite_map (m : MapStateSnapshot) : bool :=
  is_finite (zoom m) && is_finite (lat (center m)) && is_finite (lng (center m))
  && finite_bounds (bounds m).

Definition finite_result (r : PovResult) : bool :=
  is_finite (createdAt r) && finite_arrow (arrow (request r))
  && finite_map (map (request r)).

End Types.

(** ** The history store: [utils/storage] *)

Module Storage.
Import Js.

Definition KEY : string := "povmap:history:v1".

(** The global [window]: [None] where [typeof window === "undefined"]
    (rendering on the server), else the content of [localStorage]. *)
Abbreviation Window := (option (gmap string string)).

Definition loadHistory (window : Window) : Res (list JsVal) :=
  match window with
  | None => Ok []
  | Some localStorage =>
      try_catch
        (match truthy (localStorage !! KEY) with
         | None => Ok []
         | Some raw =>
             parsed ← JSON_parse raw;
             match parsed with
             | VArr l => Ok l
             | _ => Ok []
             end
         end)
        (fun _ => Ok [])
  end.

(** The write is taken here to find room in the storage; [Quota] has
    the write that the browser may refuse. *)
Definition saveHistory (history : list JsVal) (window : Window) : Window :=
  match window with
  | None => None
  | Some localStorage =>
      Some (<[KEY := item_text (JSON_stringify (VArr history))]> localStorage)
  end.

Definition appendResult (result : JsVal) (window : Window) : Res Window :=
  history ← loadHistory window;
  let history := result :: history in
  Ok (saveHistory history window).

Definition removeResult (id : string) (window : Window) : Res Window :=
  loaded ← loadHistory window;
  history ← filterM (fun r => i ← get_prop r "id"; Ok (strict_neq_str i id)) loaded;
  Ok (saveHistory history window).

Definition clearHistory (window : Window) : Window :=
  match window with
  | None => None
  | Some localStorage => Some (delete KEY localStorage)
  end.

(** The text under the key of the history, where there is one. *)
Definition stored_text (window : Window) : option string :=
  match window with
  | Some localStorage => localStorage !! KEY
  | None => None
  end.

(** The [id] of an entry that is an object. *)
Definition id_of (v : JsVal) : option JsVal :=
  match v with
  | VObj ps => Some (lookup_prop "id" ps)
  | _ => None
  end.

(** The filter of [remove] on entries that are objects. *)
Definition keeps (id : string) (v : JsVal) : bool :=
  match id_of v with
  | Some i => strict_neq_str i id
  | None => true
  end.

(** A result written as JSON and read again, field by field. *)
Definition json_roundtrip (r : Types.PovResult) : option Types.PovResult :=
  match JSON_stringify (Types.js_result r) with
  | Some text =>
      match JSON_parse text with
      | Ok v => Types.read_result v
      | Throw _ => None
      end
  | None => None
  end.

End Storage.

(** ** The history hook: [hooks/useHistory] *)

Module UseHistory.
Import Js Storage.

(** The state of the hook and the storage it writes to. *)
Record State := mkState {
  items : list JsVal;
  window : Window
}.

(** [useState([])] *)
Definition init (w : Window) : State := mkState [] w.

(** The effect that runs once after mounting. *)
Definition mount (st : State) : Res State :=
  l ← loadHistory (window st);
  Ok (mkState l (window st)).

Definition add (item : JsVal) (st : State) : State :=
  let prev := items st in
  let next := item :: prev in
  mkState next (saveHistory next (window st)).

Definition remove (id : string) (st : State) : Res State :=
  let prev := items st in
  next ← filterM (fun p => i ← get_prop p "id"; Ok (strict_neq_str i id)) prev;
  Ok (mkState next (saveHistory next (window st))).

Definition clear (st : State) : State :=
  mkState [] (saveHistory [] (window st)).

End UseHistory.

(** ** The generation route: [POST /api/generate] *)

Module Route.
Import Js.

(** [process.env] *)
Record Env := mkEnv {
  GOOGLE_API_KEY : option string;
  GEMINI_API_KEY : option string;
  GEMINI_IMAGE_MODEL : option string
}.

Definition DEFAULT_MODEL (env : Env) : string :=
  match truthy (GEMINI_IMAGE_MODEL env) with
  | Some m => m
  | None => "gemini-2.5-flash-image-preview"
  end.

(** The body of a request after [req.json()].  The handler casts it
    to a type whose [prompt] is a string, but the view leaves [prompt]
    out when the caption is blank, so the field is optional here. *)
Record Request := mkRequest {
  prompt : option string;
  arrow : option Types.ArrowSelection;
  map : Types.MapStateSnapshot;
  mapSnapshotDataUrl : option string
}.

(** The JSON that the handler answers with. *)
Inductive HttpResponse :=
| Json200 (id imageDataUrl model : string)
| Error500 (error : string).

(** What the generation service returns. *)
Record InlineData := mkInline { mimeType : option string; data : option string }.
Record RespPart := mkRespPart { inlineData : option InlineData }.
Record Content := mkContent { parts : option (list RespPart) }.
Record Candidate := mkCandidate { content : option Content }.
Record GenResponse := mkGenResponse { candidates : option (list Candidate) }.

(** The parts of a request to the service. *)
Inductive Part :=
| text_part (text : string)
| inline_part (mimeType data : string).

Inductive SdkOutcome :=
| SdkThrows (e : Exn)
| SdkReturns (response : GenResponse).

Inductive FetchOutcome :=
| FetchThrows (e : Exn)
| FetchReturns (status : N) (json : Res GenResponse).

(** The collaborators of the handler: the SDK call, [fetch] and the
    identifier that [crypto.randomUUID()] gives next (a run of the
    handler asks for one at most). *)
Record World := mkWorld {
  generateContent : string -> list Part -> string -> SdkOutcome;
  fetch : string -> string -> FetchOutcome;
  randomUUID : string
}.

(** The calls that leave the handler, in order. *)
Inductive Call :=
| sdk_call (model : string) (parts : list Part) (responseMimeType : string)
| fetch_call (url body : string).

(** Computations that may throw and that log their outside calls. *)
Definition Eff (A : Type) : Type := list Call -> Res A * list Call.

Definition ret {A} (a : A) : Eff A := fun log => (Ok a, log).
Definition throw {A} (e : Exn) : Eff A := fun log => (Throw e, log).
Definition lift {A} (r : Res A) : Eff A := fun log => (r, log).

Definition bindE {A B} (m : Eff A) (k : A -> Eff B) : Eff B :=
  fun log =>
    match m log with
    | (Ok a, log') => k a log'
    | (Throw e, log') => (Throw e, log')
    end.

Definition try_catchE {A} (body : Eff A) (handler : Exn -> Eff A) : Eff A :=
  fun log =>
    match body log with
    | (Ok a, log') => (Ok a, log')
    | (Throw e, log') => handler e log'
    end.

#[export] Instance Eff_ret : MRet Eff := @ret.
#[export] Instance Eff_bind : MBind Eff := fun A B k m => bindE m k.

Definition call_generateContent (w : World) (model : string) (ps : list Part)
    (responseMimeType : string) : Eff GenResponse :=
  fun log =>
    (match generateContent w model ps responseMimeType with
     | SdkThrows e => Throw e
     | SdkReturns r => Ok r
     end, log ++ [sdk_call model ps responseMimeType]).

Definition call_fetch (w : World) (url body : string) : Eff (N * Res GenResponse) :=
  fun log =>
    (match fetch w url body with
     | FetchThrows e => Throw e
     | FetchReturns status json => Ok (status, json)
     end, log ++ [fetch_call url body]).

Definition degree_sign : string := String "194" (String "176" "").
Definition newline : string := String "010" "".

Definition buildContextText (prompt : option string)
    (arrow : option Types.ArrowSelection)
    (map : option Types.MapStateSnapshot) : string :=
  let loc :=
    match arrow with
    | Some arrow =>
        "Location (lat,lng): " +:+ toFixed 5 (Types.latitude arrow) +:+ ", "
        +:+ toFixed 5 (Types.longitude arrow) +:+ ". Direction bearing: "
        +:+ num_to_string (Math_round (Types.bearingDeg arrow)) +:+ degree_sign
        +:+ ". Length ~" +:+ num_to_string (Math_round (Types.lengthMeters arrow))
        +:+ "m."
    | None => "No directional arrow provided."
    end in
  let bounds :=
    match map with
    | Some map =>
        let b := Types.bounds map in
        "Bounds N" +:+ toFixed 4 (Types.north b) +:+ " S" +:+ toFixed 4 (Types.south b)
        +:+ " E" +:+ toFixed 4 (Types.east b) +:+ " W" +:+ toFixed 4 (Types.west b)
        +:+ ". Zoom " +:+ num_to_string (Types.zoom map) +:+ "."
    | None => ""
    end in
  "Generate an image of what the red arrow sees. Use the map snapshot as spatial context and viewpoint."
  +:+ newline +:+ loc
  +:+ newline +:+ bounds
  +:+ newline +:+ "User caption (optional): "
  +:+ match truthy prompt with Some p => p | None => "" end
  +:+ newline +:+ "Label AI-generated if watermarks are supported.".

(** The match of a data URL in [dataUrlToPart]: the text [data:], a
    media type of one or more characters other than a semicolon, the
    text [;base64,] and a payload without line break up to the end. *)
Fixpoint until_semicolon (s : string) : string * string :=
  match s with
  | String c r =>
      if Ascii.eqb c ";" then ("", s)
      else let '(m, r') := until_semicolon r in (String c m, r')
  | EmptyString => ("", s)
  end.

Fixpoint no_line_break (s : string) : bool :=
  match s with
  | String c r => negb (Ascii.eqb c "010" || Ascii.eqb c "013") && no_line_break r
  | EmptyString => true
  end.

Definition match_data_url (dataUrl : string) : option (string * string) :=
  match expect "data:" dataUrl with
  | None => None
  | Some r =>
      let '(mime, r1) := until_semicolon r in
      if String.eqb mime "" then None
      else match expect ";base64," r1 with
           | Some d => if no_line_break d then Some (mime, d) else None
           | None => None
           end
  end.

Definition dataUrlToPart (dataUrl : string) : Part :=
  match match_data_url dataUrl with
  | None => inline_part "image/jpeg" ""
  | Some (mimeType, data) => inline_part mimeType data
  end.

(** [candidates?.[0]?.content?.parts?.find(p =>
    p.inlineData?.mimeType?.startsWith("image/"))], and then the test
    [part?.inlineData?.data]: the media type and the payload of the
    first image part, where it has a payload. *)
Definition is_image_part (p : RespPart) : bool :=
  match inlineData p with
  | Some i => match mimeType i with
              | Some m => String.prefix "image/" m
              | None => false
              end
  | None => false
  end.

Definition first_image (r : GenResponse) : option (string * string) :=
  match candidates r with
  | Some (c :: _) =>
      match content c with
      | Some ct =>
          match parts ct with
          | Some ps =>
              match find is_image_part ps with
              | Some p =>
                  match inlineData p with
                  | Some i =>
                      match mimeType i, truthy (data i) with
                      | Some m, Some d => Some (m, d)
                      | _, _ => None
                      end
                  | None => None
                  end
              | None => None
              end
          | None => None
          end
      | None => None
      end
  | _ => None
  end.

Definition data_url (mimeType data : string) : string :=
  "data:" +:+ mimeType +:+ ";base64," +:+ data.

Definition request_parts (req : Request) : list Part :=
  text_part (buildContextText (prompt req) (arrow req) (Some (map req)))
  :: match truthy (mapSnapshotDataUrl req) with
     | Some u => [dataUrlToPart u]
     | None => []
     end.

Definition js_part (p : Part) : JsVal :=
  match p with
  | text_part t => VObj [("text", VStr t)]
  | inline_part m d =>
      VObj [("inlineData", VObj [("mimeType", VStr m); ("data", VStr d)])]
  end.

Definition rest_url (model apiKey : string) : string :=
  "https://generativelanguage.googleapis.com/v1beta/models/"
  +:+ encodeURIComponent model +:+ ":generateContent?key=" +:+ apiKey.

Definition callImagesGenerateREST (w : World) (apiKey model : string)
    (req : Request) : Eff (option HttpResponse) :=
  try_catchE
    (let parts := request_parts req in
     let rq := VObj [("contents",
                      VArr [VObj [("role", VStr "user");
                                  ("parts", VArr (List.map js_part parts))]])] in
     let url := rest_url model apiKey in
     resp ← call_fetch w url (item_text (JSON_stringify rq));
     let '(status, json) := resp in
     if negb ((200 <=? status) && (status <=? 299))%N
     then throw (Error ("HTTP " +:+ render_N status))
     else
       data ← lift json;
       match first_image data with
       | Some (m, d) => ret (Some (Json200 (randomUUID w) (data_url m d) model))
       | None => ret None
       end)
    (fun _ => ret None).

(** The placeholder image of the mock mode. *)
Definition escaped (s : string) : string :=
  replace_all ">" "&gt;" (replace_all "<" "&lt;" (replace_all "&" "&amp;" s)).

(** No character of [s] is one of the three that [escapeHtml]
    replaces. *)
Fixpoint is_plain (s : string) : bool :=
  match s with
  | EmptyString => true
  | String c r =>
      negb (Ascii.eqb c "&" || Ascii.eqb c "<" || Ascii.eqb c ">") && is_plain r
  end.

(** [escapeHtml]: the argument is [None] where the caller passes
    [undefined], and [s.replace] then throws. *)
Definition escapeHtml (s : option string) : Res string :=
  match s with
  | Some s => Ok (escaped s)
  | None => Throw (cannot_read "undefined" "replace")
  end.

Definition svg_open : string :=
"<svg xmlns='http://www.w3.org/2000/svg' width='800' height='450'>
    <rect width='100%' height='100%' fill='#f3f4f6'/>
    <text x='50%' y='45%' dominant-baseline='middle' text-anchor='middle' font-family='sans-serif' font-size='20' fill='#374151'>Mock image</text>
    <text x='50%' y='55%' dominant-baseline='middle' text-anchor='middle' font-family='sans-serif' font-size='14' fill='#6b7280'>".

Definition svg_close : string :=
"</text>
  </svg>".

Definition mock_svg (caption : string) : string :=
  svg_open +:+ caption +:+ svg_close.

Definition synthMockImage (text : option string) : Res string :=
  caption ← escapeHtml text;
  let svg := mock_svg (slice0 90 caption) in
  let base64 := base64 (utf8 svg) in
  Ok ("data:image/svg+xml;base64," +:+ base64).

Definition sdk_path (w : World) (model : string) (req : Request)
  : Eff (option HttpResponse) :=
  try_catchE
    (res ← call_generateContent w model (request_parts req) "image/png";
     match first_image res with
     | Some (m, d) => ret (Some (Json200 (randomUUID w) (data_url m d) model))
     | None => ret None
     end)
    (fun _ => ret None).

Definition POST (env : Env) (w : World) (req : Request) : Eff HttpResponse :=
  try_catchE
    (let apiKey := or_else (GOOGLE_API_KEY env) (GEMINI_API_KEY env) in
     match truthy apiKey with
     | None =>
         dataUrl ← lift (synthMockImage (prompt req));
         ret (Json200 (randomUUID w) dataUrl "mock")
     | Some apiKey =>
         first ← sdk_path w (DEFAULT_MODEL env) req;
         match first with
         | Some answer => ret answer
         | None =>
             rest ← callImagesGenerateREST w apiKey (DEFAULT_MODEL env) req;
             match rest with
             | Some answer => ret answer
             | None => throw (Error "Model did not return an image")
             end
         end
     end)
    (fun e => ret (Error500 (message e))).

(** The credential of the environment, where one is configured. *)
Definition credential (env : Env) : option string :=
  truthy (or_else (GOOGLE_API_KEY env) (GEMINI_API_KEY env)).

(** The operation [generate] of the route: one run of the handler, with
    the answer and the calls it made. *)
Definition generate (env : Env) (w : World) (req : Request)
  : HttpResponse * list Call :=
  match POST env w req [] with
  | (Ok r, log) => (r, log)
  | (Throw e, log) => (Error500 (message e), log)
  end.

(** The image that each of the two attempts yields, if any: the SDK
    call, and the REST call with its status and body. *)
Definition rest_body (req : Request) : string :=
  item_text
    (JSON_stringify
       (VObj [("contents",
               VArr [VObj [("role", VStr "user");
                           ("parts", VArr (List.map js_part (request_parts req)))]])])).

Definition sdk_image (w : World) (model : string) (req : Request)
  : option (string * string) :=
  match generateContent w model (request_parts req) "image/png" with
  | SdkReturns r => first_image r
  | SdkThrows _ => None
  end.

Definition rest_image (w : World) (apiKey model : string) (req : Request)
  : option (string * string) :=
  match fetch w (rest_url model apiKey) (rest_body req) with
  | FetchReturns status (Ok r) =>
      if ((200 <=? status) && (status <=? 299))%N then first_image r else None
  | _ => None
  end.

Definition answer_of (w : World) (model : string) (image : option (string * string))
  : option HttpResponse :=
  match image with
  | Some (m, d) => Some (Json200 (randomUUID w) (data_url m d) model)
  | None => None
  end.

(** The data URL of the mock image for a caption. *)
Definition mock_image (p : string) : string :=
  "data:image/svg+xml;base64," +:+ base64 (utf8 (mock_svg (slice0 90 (escaped p)))).

Definition response_image (r : HttpResponse) : option string :=
  match r with Json200 _ u _ => Some u | Error500 _ => None end.

Definition response_model (r : HttpResponse) : option string :=
  match r with Json200 _ _ m => Some m | Error500 _ => None end.

End Route.

(** ** The request that the map view sends *)

Module MapView.
Import Js.

(** The payload of [generate] in the view with the optional caption:
    [prompt: prompt.trim() || undefined], and the exported snapshot
    or the empty string. *)
Definition payload (prompt : string) (arrow : Types.ArrowSelection)
    (mapState : Types.MapStateSnapshot) (mapSnapshotDataUrl : option string)
  : Route.Request :=
  {| Route.prompt := truthy (Some (trim prompt));
     Route.arrow := Some arrow;
     Route.map := mapState;
     Route.mapSnapshotDataUrl :=
       Some (match mapSnapshotDataUrl with Some u => u | None => "" end) |}.

End MapView.

(** ** Sample data *)

Module Samples.
Import Js.

Definition arrow_north : Types.ArrowSelection :=
  Types.mkArrow (Finite 185204 (-4)) (Finite 738567 (-4)) (Finite 0 0) (Finite 150 0).

Definition map_pune : Types.MapStateSnapshot :=
  Types.mkMapState (Finite 12 0)
    (Types.mkLatLng (Finite 185204 (-4)) (Finite 738567 (-4)))
    (Types.mkBounds (Finite 186 (-1)) (Finite 185 (-1)) (Finite 739 (-1)) (Finite 738 (-1)))
    "https://basemaps.cartocdn.com/gl/voyager-gl-style/style.json".

Definition result_finite : Types.PovResult :=
  {| Types.id := "3f1c"; Types.createdAt := Finite 1700000000000 0;
     Types.request := Types.mkPovRequest "harbour at dusk" arrow_north map_pune;
     Types.mapSnapshotDataUrl := "data:image/jpeg;base64,AAAA";
     Types.imageDataUrl := "data:image/png;base64,BBBB";
     Types.model := Some "mock";
     Types.safetyLabels := None |}.

(** A result whose time stamp is not a number. *)
Definition result_with_NaN : Types.PovResult :=
  {| Types.id := "3f1c"; Types.createdAt := NaN;
     Types.request := Types.mkPovRequest "harbour at dusk" arrow_north map_pune;
     Types.mapSnapshotDataUrl := "data:image/jpeg;base64,AAAA";
     Types.imageDataUrl := "data:image/png;base64,BBBB";
     Types.model := Some "mock";
     Types.safetyLabels := None |}.

Definition two_entries : gmap string string :=
  {[ Storage.KEY := dq "[{'id':'a'},{'id':'b'}]" ]}.

(** No credential, and a credential. *)
Definition no_key : Route.Env := Route.mkEnv None None None.
Definition with_key : Route.Env := Route.mkEnv None (Some "secret") None.

(** What the view sends for a blank caption, for a caption, and for a
    caption of 89 letters and an ampersand. *)
Definition blank_request : Route.Request :=
  MapView.payload "" arrow_north map_pune (Some "data:image/jpeg;base64,AAAA").

Definition harbour_request : Route.Request :=
  MapView.payload "harbour <at> dusk" arrow_north map_pune (Some "data:image/jpeg;base64,AAAA").

Fixpoint letters (n : nat) : string :=
  match n with O => "" | S n' => String "a" (letters n') end.

Definition long_request : Route.Request :=
  MapView.payload (letters 89 +:+ "&") arrow_north map_pune None.

Definition other_request : Route.Request :=
  Route.mkRequest (Some "harbour <at> dusk") None map_pune None.

(** Answers of the service: one without image part, one with. *)
Definition text_only : Route.GenResponse :=
  Route.mkGenResponse
    (Some [Route.mkCandidate (Some (Route.mkContent (Some [Route.mkRespPart None])))]).

Definition with_image : Route.GenResponse :=
  Route.mkGenResponse
    (Some [Route.mkCandidate
             (Some (Route.mkContent
                      (Some [Route.mkRespPart
                               (Some (Route.mkInline (Some "image/png") (Some "iVBOR")))])))]).

(** The SDK throws and the REST call is refused; the SDK answers
    without image and the REST call brings one; neither brings one. *)
Definition world_down : Route.World :=
  Route.mkWorld (fun _ _ _ => Route.SdkThrows (Error "fetch failed"))
                (fun _ _ => Route.FetchReturns 503 (Ok text_only)) "id-1".

Definition world_rest_image : Route.World :=
  Route.mkWorld (fun _ _ _ => Route.SdkReturns text_only)
                (fun _ _ => Route.FetchReturns 200 (Ok with_image)) "id-2".

Definition world_no_image : Route.World :=
  Route.mkWorld (fun _ _ _ => Route.SdkReturns text_only)
                (fun _ _ => Route.FetchReturns 200 (Ok text_only)) "id-3".

End Samples.

(** ** The view with the two modes: state, handlers and [generate] *)

Module Interaction.
Import Js.

Inductive Mode := pan | draw.

(** The state that the component keeps. *)
Record State := mkView {
  prompt : string;
  isGenerating : bool;
  arrow : option Types.ArrowSelection;
  bearingDeg : JsNum;
  lengthMeters : JsNum;
  mode : Mode
}.

Definition initial : State :=
  mkView "" false None (Finite 0 0) (Finite 150 0) draw.

Definition styleUrl : string :=
  "https://basemaps.cartocdn.com/gl/voyager-gl-style/style.json".

Definition setPrompt (p : string) (st : State) : State :=
  mkView p (isGenerating st) (arrow st) (bearingDeg st) (lengthMeters st) (mode st).

Definition setIsGenerating (b : bool) (st : State) : State :=
  mkView (prompt st) b (arrow st) (bearingDeg st) (lengthMeters st) (mode st).

Definition setArrow (a : option Types.ArrowSelection) (st : State) : State :=
  mkView (prompt st) (isGenerating st) a (bearingDeg st) (lengthMeters st) (mode st).

Definition setBearingDeg (v : JsNum) (st : State) : State :=
  mkView (prompt st) (isGenerating st) (arrow st) v (lengthMeters st) (mode st).

Definition setLengthMeters (v : JsNum) (st : State) : State :=
  mkView (prompt st) (isGenerating st) (arrow st) (bearingDeg st) v (mode st).

Definition setMode (m : Mode) (st : State) : State :=
  mkView (prompt st) (isGenerating st) (arrow st) (bearingDeg st) (lengthMeters st) m.

(** [onMapClick]: a click places the arrow in draw mode only, with the
    values of the two sliders. *)
Definition onMapClick (lat lng : JsNum) (st : State) : State :=
  match mode st with
  | pan => st
  | draw =>
      setArrow (Some {| Types.latitude := lat;
                        Types.longitude := lng;
                        Types.bearingDeg := bearingDeg st;
                        Types.lengthMeters := lengthMeters st |}) st
  end.

(** The two sliders: the value goes to the state and, where an arrow
    is set, into the arrow. *)
Definition onBearingChange (v : JsNum) (st : State) : State :=
  let st := setBearingDeg v st in
  match arrow st with
  | Some a =>
      setArrow (Some {| Types.latitude := Types.latitude a;
                        Types.longitude := Types.longitude a;
                        Types.bearingDeg := v;
                        Types.lengthMeters := Types.lengthMeters a |}) st
  | None => st
  end.

Definition onLengthChange (v : JsNum) (st : State) : State :=
  let st := setLengthMeters v st in
  match arrow st with
  | Some a =>
      setArrow (Some {| Types.latitude := Types.latitude a;
                        Types.longitude := Types.longitude a;
                        Types.bearingDeg := Types.bearingDeg a;
                        Types.lengthMeters := v |}) st
  | None => st
  end.

Definition clearArrow (st : State) : State := setArrow None st.

(** The button [Tweak] of a history entry. *)
Definition tweak (request : Types.PovRequest) (st : State) : State :=
  setArrow (Some (Types.arrow request)) (setPrompt (Types.prompt request) st).

(** The property [dragPan] of the map and the property [disabled] of
    the button that generates. *)
Definition dragPan (st : State) : bool :=
  match mode st with pan => true | draw => false end.

Definition generate_disabled (st : State) : bool :=
  match arrow st with None => true | Some _ => isGenerating st end.

(** What the user does. *)
Inductive Event :=
| Click (lat lng : JsNum)
| SetMode (m : Mode)
| SlideBearing (v : JsNum)
| SlideLength (v : JsNum)
| TypeCaption (text : string)
| ClearArrow
| Tweak (request : Types.PovRequest).

Definition handle (e : Event) (st : State) : State :=
  match e with
  | Click lat lng => onMapClick lat lng st
  | SetMode m => setMode m st
  | SlideBearing v => onBearingChange v st
  | SlideLength v => onLengthChange v st
  | TypeCaption text => setPrompt text st
  | ClearArrow => clearArrow st
  | Tweak request => tweak request st
  end.

Definition handle_all (es : list Event) (st : State) : State :=
  fold_left (fun s e => handle e s) es st.

Definition is_tweak (e : Event) : bool :=
  match e with Tweak _ => true | _ => false end.

(** The arrow, where one is set, carries the values of the sliders. *)
Definition arrow_follows_sliders (st : State) : Prop :=
  match arrow st with
  | Some a => Types.bearingDeg a = bearingDeg st
              /\ Types.lengthMeters a = lengthMeters st
  | None => True
  end.

(** Where the arrow stands, if there is one. *)
Definition position (st : State) : option (JsNum * JsNum) :=
  match arrow st with
  | Some a => Some (Types.latitude a, Types.longitude a)
  | None => None
  end.

(** The events that neither switch to draw mode nor set or clear the
    arrow from the side panel. *)
Definition stays_in_pan (e : Event) : bool :=
  match e with
  | Click _ _ | SlideBearing _ | SlideLength _ | TypeCaption _ | SetMode pan => true
  | SetMode draw | ClearArrow | Tweak _ => false
  end.

(** The map widget as [snapshotMapState] reads it. *)
Record MapLibre := mkMap {
  getZoom : JsNum;
  getCenter : Types.LatLng;
  getBounds : Types.Bounds
}.

Definition snapshotMapState (map : option MapLibre) : option Types.MapStateSnapshot :=
  match map with
  | None => None
  | Some map =>
      Some {| Types.zoom := getZoom map;
              Types.center := {| Types.lat := Types.lat (getCenter map);
                                 Types.lng := Types.lng (getCenter map) |};
              Types.bounds := {| Types.north := Types.north (getBounds map);
                                 Types.south := Types.south (getBounds map);
                                 Types.east := Types.east (getBounds map);
                                 Types.west := Types.west (getBounds map) |};
              Types.style := styleUrl |}
  end.

(** The answer of [fetch("/api/generate", ...)]: the call throws, or
    there is a status and the result of [res.json()]. *)
Inductive ApiOutcome :=
| ApiThrows (e : Exn)
| ApiAnswers (status : N) (json : Res JsVal).

(** What [generate] reads from outside the component: the map, the
    result of [exportMapSnapshot()], the server, [crypto.randomUUID()]
    and [Date.now()]. *)
Record Surroundings := mkSurroundings {
  map : option MapLibre;
  exported : Res (option string);
  api : Route.Request -> ApiOutcome;
  uuid : string;
  now : JsNum
}.

(** [a ?? b] *)
Definition nullish_or (a b : JsVal) : JsVal :=
  match a with
  | VUndefined | VNull => b
  | _ => a
  end.

Definition or_empty (o : option string) : string :=
  match truthy o with Some s => s | None => "" end.

(** The object literal [result] of [generate]. *)
Definition result_object (payload : Route.Request) (data : JsVal)
    (uuid : string) (now : JsNum) : Res JsVal :=
  id ← get_prop data "id";
  imageDataUrl ← get_prop data "imageDataUrl";
  model ← get_prop data "model";
  safetyLabels ← get_prop data "safetyLabels";
  Ok (VObj [("id", nullish_or id (VStr uuid));
            ("createdAt", VNum now);
            ("request",
             VObj [("prompt", VStr (or_empty (Route.prompt payload)));
                   ("arrow", Types.js_opt Types.js_arrow (Route.arrow payload));
                   ("map", Types.js_map (Route.map payload))]);
            ("mapSnapshotDataUrl", VStr (or_empty (Route.mapSnapshotDataUrl payload)));
            ("imageDataUrl", imageDataUrl);
            ("model", model);
            ("safetyLabels", safetyLabels)]).

(** The body of the [try] of [generate]: the requests that it sends
    and its result, [None] where it returns without a map. *)
Definition generate_body (sur : Surroundings) (st : State)
    (arrow : Types.ArrowSelection) : list Route.Request * Res (option JsVal) :=
  match snapshotMapState (map sur) with
  | None => ([], Ok None)
  | Some mapState =>
      match exported sur with
      | Throw e => ([], Throw e)
      | Ok mapSnapshotDataUrl =>
          let payload := MapView.payload (prompt st) arrow mapState mapSnapshotDataUrl in
          ([payload],
           match api sur payload with
           | ApiThrows e => Throw e
           | ApiAnswers status json =>
               if negb ((200 <=? status) && (status <=? 299))%N
               then Throw (Error "Generation failed")
               else
                 data ← json;
                 result ← result_object payload data (uuid sur) (now sur);
                 Ok (Some result)
           end)
      end
  end.

(** What a run of [generate] leaves: the state of the view, the
    history, whether the alert was shown and the requests sent. *)
Record Outcome := mkOutcome {
  view : State;
  history : UseHistory.State;
  alerted : bool;
  sent : list Route.Request
}.

Definition generate (sur : Surroundings) (st : State) (h : UseHistory.State)
  : Outcome :=
  match arrow st with
  | None => mkOutcome st h false []
  | Some arrow =>
      let st := setIsGenerating true st in
      let '(requests, tried) := generate_body sur st arrow in
      let '(h, alerted) :=
        match tried with
        | Ok (Some result) => (UseHistory.add result h, false)
        | Ok None => (h, false)
        | Throw _ => (h, true)          (* catch: console.error and alert *)
        end in
      mkOutcome (setIsGenerating false st) h alerted requests   (* finally *)
  end.

(** The route as the server of the view: the status and the body that
    the handler answers with, read by [res.json()].  The request
    reaches the handler with the fields that the view gave it. *)
Definition to_http (r : Route.HttpResponse) : N * string :=
  match r with
  | Route.Json200 id imageDataUrl model =>
      (200%N,
       item_text (JSON_stringify
                    (VObj [("id", VStr id); ("imageDataUrl", VStr imageDataUrl);
                           ("model", VStr model)])))
  | Route.Error500 error =>
      (500%N, item_text (JSON_stringify (VObj [("error", VStr error)])))
  end.

Definition served (env : Route.Env) (w : Route.World) (req : Route.Request)
  : ApiOutcome :=
  let '(status, body) := to_http (fst (Route.generate env w req)) in
  ApiAnswers status (JSON_parse body).

End Interaction.

(** ** The view that asks for a caption: [generate] *)

Module FirstView.
Import Js.

(** The state that the component keeps. *)
Record State := mkView {
  prompt : string;
  isGenerating : bool;
  arrow : option Types.ArrowSelection
}.

Definition styleUrl : string :=
  "https://basemaps.cartocdn.com/gl/positron-gl-style/style.json".

Definition setIsGenerating (b : bool) (st : State) : State :=
  mkView (prompt st) b (arrow st).

Definition snapshotMapState (map : option Interaction.MapLibre)
  : option Types.MapStateSnapshot :=
  match map with
  | None => None
  | Some map =>
      Some {| Types.zoom := Interaction.getZoom map;
              Types.center :=
                {| Types.lat := Types.lat (Interaction.getCenter map);
                   Types.lng := Types.lng (Interaction.getCenter map) |};
              Types.bounds :=
                {| Types.north := Types.north (Interaction.getBounds map);
                   Types.south := Types.south (Interaction.getBounds map);
                   Types.east := Types.east (Interaction.getBounds map);
                   Types.west := Types.west (Interaction.getBounds map) |};
              Types.style := styleUrl |}
  end.

(** The payload of [generate]: [{ prompt: prompt.trim(), arrow, map }]. *)
Definition payload (prompt : string) (arrow : option Types.ArrowSelection)
    (mapState : Types.MapStateSnapshot) : Route.Request :=
  {| Route.prompt := Some (trim prompt);
     Route.arrow := arrow;
     Route.map := mapState;
     Route.mapSnapshotDataUrl := None |}.

(** The property [disabled] of the button that generates. *)
Definition generate_disabled (st : State) : bool :=
  match arrow st with
  | None => true
  | Some _ => isGenerating st || String.eqb (trim (prompt st)) ""
  end.

(** The object literal [result] of [generate]. *)
Definition result_object (prompt : string) (arrow : option Types.ArrowSelection)
    (mapState : Types.MapStateSnapshot) (data : JsVal) (uuid : string)
    (now : JsNum) (mapSnapshotDataUrl : string) : Res JsVal :=
  id ← get_prop data "id";
  imageDataUrl ← get_prop data "imageDataUrl";
  model ← get_prop data "model";
  safetyLabels ← get_prop data "safetyLabels";
  Ok (VObj [("id", Interaction.nullish_or id (VStr uuid));
            ("createdAt", VNum now);
            ("request",
             VObj [("prompt", VStr prompt);
                   ("arrow", Types.js_opt Types.js_arrow arrow);
                   ("map", Types.js_map mapState)]);
            ("mapSnapshotDataUrl", VStr mapSnapshotDataUrl);
            ("imageDataUrl", imageDataUrl);
            ("model", model);
            ("safetyLabels", safetyLabels)]).

(** The body of the [try] of [generate]. *)
Definition generate_body (sur : Interaction.Surroundings) (st : State)
  : list Route.Request * Res (option JsVal) :=
  match snapshotMapState (Interaction.map sur) with
  | None => ([], Ok None)
  | Some mapState =>
      let payload := payload (prompt st) (arrow st) mapState in
      ([payload],
       match Interaction.api sur payload with
       | Interaction.ApiThrows e => Throw e
       | Interaction.ApiAnswers status json =>
           if negb ((200 <=? status) && (status <=? 299))%N
           then Throw (Error "Generation failed")
           else
             data ← json;
             exported ← Interaction.exported sur;
             let mapSnapshotDataUrl :=
               match exported with Some u => u | None => "" end in
             result ← result_object (trim (prompt st)) (arrow st) mapState data
                        (Interaction.uuid sur) (Interaction.now sur)
                        mapSnapshotDataUrl;
             Ok (Some result)
       end)
  end.

Record Outcome := mkOutcome {
  view : State;
  history : UseHistory.State;
  alerted : bool;
  sent : list Route.Request
}.

Definition generate (sur : Interaction.Surroundings) (st : State)
    (h : UseHistory.State) : Outcome :=
  if String.eqb (trim (prompt st)) "" then mkOutcome st h false []
  else
    let st := setIsGenerating true st in
    let '(requests, tried) := generate_body sur st in
    let '(h, alerted) :=
      match tried with
      | Ok (Some result) => (UseHistory.add result h, false)
      | Ok None => (h, false)
      | Throw _ => (h, true)          (* catch: console.error and alert *)
      end in
    mkOutcome (setIsGenerating false st) h alerted requests.   (* finally *)

End FirstView.

(** ** The write that the browser may refuse *)

Module Quota.
Import Js Storage UseHistory.

(** [localStorage.setItem] throws where the storage has no room for the
    text (a QuotaExceededError), and the sources do not catch it.  The
    browser decides by the content of the storage, the key and the
    text: [None] is a write that is taken, [Some e] one that throws
    [e]. *)
Abbreviation Refusal := (gmap string string -> string -> string -> option Exn).

Definition setItem (refusal : Refusal) (k v : string)
    (localStorage : gmap string string) : Res (gmap string string) :=
  match refusal localStorage k v with
  | Some e => Throw e
  | None => Ok (<[k := v]> localStorage)
  end.

(** [JSON.stringify(history)] *)
Definition text (history : list JsVal) : string :=
  item_text (JSON_stringify (VArr history)).

Definition saveHistory (refusal : Refusal) (history : list JsVal)
    (window : Window) : Res Window :=
  match window with
  | None => Ok None
  | Some localStorage =>
      localStorage ← setItem refusal KEY (text history) localStorage;
      Ok (Some localStorage)
  end.

Definition appendResult (refusal : Refusal) (result : JsVal) (window : Window)
  : Res Window :=
  history ← loadHistory window;
  let history := result :: history in
  saveHistory refusal history window.

(** [add] of the hook: a write that throws leaves the updater before
    it returns, and the list stays as it was. *)
Definition add (refusal : Refusal) (item : JsVal) (st : State) : Res State :=
  let prev := items st in
  let next := item :: prev in
  w ← saveHistory refusal next (window st);
  Ok (mkState next w).



End Quota.

(** ** Runs of the history hook *)

Module HookRuns.
Import Js UseHistory.

Inductive Op :=
| op_add (item : JsVal)
| op_remove (id : string)
| op_clear.

Definition apply (op : Op) (st : State) : Res State :=
  match op with
  | op_add item => Ok (add item st)
  | op_remove id => remove id st
  | op_clear => Ok (clear st)
  end.

(** The operations one after the other, up to the first that throws. *)
Fixpoint run (ops : list Op) (st : State) : Res State :=
  match ops with
  | [] => Ok st
  | op :: rest => st' ← apply op st; run rest st'
  end.

(** What a load of the storage gives is the list of the hook, as JSON
    copies it. *)
Definition in_step (st : State) : Prop :=
  Storage.loadHistory (window st) = Ok (List.map stored_copy (items st)).

End HookRuns.

(** ** Predicates on texts *)

Module Texts.

Fixpoint contains (c : ascii) (s : string) : bool :=
  match s with
  | EmptyString => false
  | String a r => Ascii.eqb a c || contains c r
  end.

End Texts.

(** The calls that [drawOverlay] makes on the context, by the four
    points that it passes: the origin, the end of the shaft and the two
    points of the head. *)
Module Drawing.
Import Geometry.

Definition strokes (origin tip left right : Point) : list CanvasOp :=
  [ save; lineWidth 4; strokeStyle "#ef4444"; fillStyle "#ef4444";
    lineCap "round";
    beginPath; moveTo (x origin) (y origin); lineTo (x tip) (y tip); stroke;
    beginPath; moveTo (x tip) (y tip); lineTo (x left) (y left);
    lineTo (x right) (y right); closePath; fill;
    restore ].

End Drawing.

(** * Properties *)

(** ** The arrow overlay and the click bearing *)

Module GeometryFacts.
Import Geometry.
Local Open Scope R_scope.

Lemma Math_atan2_bound (y x : R) : - PI < Math_atan2 y x <= PI.
Proof.
  unfold Math_atan2.
  pose proof PI_RGT_0 as Hpi.
  pose proof (atan_bound (y / x)) as [Hlo Hhi].
  destruct (Rlt_dec 0 x); [lra |].
  destruct (Rlt_dec x 0) as [Hx | Hx].
  - assert (Hinv : / x < 0) by (apply Rinv_lt_0_compat; exact Hx).
    destruct (Rle_dec 0 y) as [Hy | Hy].
    + assert (Hq : y / x <= 0) by (unfold Rdiv; nra).
      assert (atan (y / x) <= 0).
      { destruct Hq as [Hq | Hq].
        - pose proof (atan_increasing _ _ Hq) as Hi. rewrite atan_0 in Hi. lra.
        - rewrite Hq, atan_0. lra. }
      lra.
    + assert (Hq : 0 < y / x) by (unfold Rdiv; nra).
      pose proof (atan_increasing _ _ Hq) as Hi. rewrite atan_0 in Hi. lra.
  - destruct (Rlt_dec 0 y); [lra |].
    destruct (Rlt_dec y 0); lra.
Qed.

(** The remainder of a dividend that is not negative. *)
Lemma js_rem_range (n d : R) : 0 <= n -> 0 < d -> 0 <= js_rem n d < d.
Proof.
  intros Hn Hd. unfold js_rem, trunc.
  assert (Hq : 0 <= n / d) by (apply Rle_mult_inv_pos; assumption).
  destruct (Rle_dec 0 (n / d)) as [_ | Hc]; [| contradiction].
  destruct (base_Int_part (n / d)) as [Hlo Hhi].
  set (k := IZR (Int_part (n / d))) in *.
  assert (Hn' : n = d * (n / d)) by (field; lra).
  split.
  - assert (d * k <= d * (n / d)) by (apply Rmult_le_compat_l; lra). lra.
  - assert (d * (n / d) < d * (k + 1)) by (apply Rmult_lt_compat_l; lra). lra.
Qed.

Lemma js_rem_small (n d : R) : 0 <= n < d -> js_rem n d = n.
Proof.
  intros [Hn Hd]. unfold js_rem, trunc.
  assert (Hq : 0 <= n / d) by (apply Rle_mult_inv_pos; lra).
  destruct (Rle_dec 0 (n / d)) as [_ | Hc]; [| contradiction].
  assert (Hlt : n / d < 1).
  { apply Rmult_lt_reg_r with d; [lra |]. unfold Rdiv. rewrite Rmult_assoc, Rinv_l; lra. }
  rewrite <- (Int_part_spec (n / d) 0); [simpl; lra |]. simpl. lra.
Qed.

Lemma js_rem_once (n d : R) : d <= n < 2 * d -> 0 < d -> js_rem n d = n - d.
Proof.
  intros [Hlo Hhi] Hd. unfold js_rem, trunc.
  assert (H1 : 1 <= n / d).
  { apply Rmult_le_reg_r with d; [lra |]. unfold Rdiv. rewrite Rmult_assoc, Rinv_l; lra. }
  assert (H2 : n / d < 2).
  { apply Rmult_lt_reg_r with d; [lra |]. unfold Rdiv. rewrite Rmult_assoc, Rinv_l; lra. }
  destruct (Rle_dec 0 (n / d)) as [_ | Hc]; [| lra].
  rewrite <- (Int_part_spec (n / d) 1); [simpl; lra |]. simpl. lra.
Qed.

Lemma degrees_bound (a : R) : - PI < a <= PI -> -180 < a * 180 / PI <= 180.
Proof.
  intros [Hlo Hhi]. pose proof PI_RGT_0 as Hpi.
  assert (Hinv : 0 < / PI) by (apply Rinv_0_lt_compat; exact Hpi).
  assert (E : PI * / PI = 1) by (apply Rinv_r; lra).
  unfold Rdiv. split; nra.
Qed.

Lemma pythagoras (l a : R) : Rsqr (l * sin a) + Rsqr (l * cos a) = Rsqr l.
Proof.
  rewrite !Rsqr_mult. rewrite <- Rmult_plus_distr_l, sin2_cos2. ring.
Qed.

Lemma dist_polar (p : Point) (l a : R) :
  0 <= l -> dist p (mkPoint (x p + l * sin a) (y p - l * cos a)) = l.
Proof.
  intros Hl. unfold dist. simpl.
  replace (x p + l * sin a - x p) with (l * sin a) by ring.
  replace (y p - l * cos a - y p) with (- (l * cos a)) by ring.
  rewrite <- Rsqr_neg, pythagoras. apply sqrt_Rsqr. exact Hl.
Qed.

Lemma dist_head (p : Point) (l a : R) :
  0 <= l -> dist p (mkPoint (x p - l * sin a) (y p + l * cos a)) = l.
Proof.
  intros Hl. unfold dist. simpl.
  replace (x p - l * sin a - x p) with (- (l * sin a)) by ring.
  replace (y p + l * cos a - y p) with (l * cos a) by ring.
  rewrite <- Rsqr_neg, pythagoras. apply sqrt_Rsqr. exact Hl.
Qed.

(** The operations of [draw_arrow], with the end point and the two head
    points written as points. *)
Lemma draw_arrow_points (origin : Point) (b width height : R) :
  let L := lengthPx width height in
  let theta := b * PI / 180 in
  let tip := mkPoint (x origin + L * sin theta) (y origin - L * cos theta) in
  let left := mkPoint (x tip - 12 * sin (theta - 22.5 * PI / 180))
                      (y tip + 12 * cos (theta - 22.5 * PI / 180)) in
  let right := mkPoint (x tip - 12 * sin (theta + 22.5 * PI / 180))
                       (y tip + 12 * cos (theta + 22.5 * PI / 180)) in
  draw_arrow origin b width height =
    [ save; lineWidth 4; strokeStyle "#ef4444"; fillStyle "#ef4444"; lineCap "round";
      beginPath; moveTo (x origin) (y origin); lineTo (x tip) (y tip); stroke;
      beginPath; moveTo (x tip) (y tip); lineTo (x left) (y left);
      lineTo (x right) (y right); closePath; fill; restore ].
Proof.
  intros L theta tip left right. unfold draw_arrow.
  assert (Ea : PI / 8 = 22.5 * PI / 180) by lra.
  unfold headAngle, headLen. rewrite Ea.
  subst tip left right L theta. simpl.
  rewrite !(Rmult_comm (sin _) (lengthPx _ _)), !(Rmult_comm (cos _) (lengthPx _ _)).
  reflexivity.
Qed.

(** C3.  For a bearing in [0,360) and a positive pixel length
    (a quarter of the smaller canvas side), both overlays draw the shaft
    from the origin to origin + length (sin bearing, - cos bearing),
    which lies at exactly that distance from the origin, straight up at
    0 degrees and to the right at 90 degrees; the two head points lie
    12 pixels from the end point, at the bearing turned by 22.5 degrees
    to either side. *)
Theorem arrow_overlay_geometry (project : R * R -> Point)
    (arrow : ArrowSelection) (width height : R) :
  0 <= bearingDeg arrow < 360 ->
  0 < lengthPx width height ->
  let L := lengthPx width height in
  let theta := bearingDeg arrow * PI / 180 in
  let spread := 22.5 * PI / 180 in
  let tip o := mkPoint (x o + L * sin theta) (y o - L * cos theta) in
  let left o := mkPoint (x (tip o) - 12 * sin (theta - spread))
                        (y (tip o) + 12 * cos (theta - spread)) in
  let right o := mkPoint (x (tip o) - 12 * sin (theta + spread))
                         (y (tip o) + 12 * cos (theta + spread)) in
  let drawn o :=
    [ save; lineWidth 4; strokeStyle "#ef4444"; fillStyle "#ef4444"; lineCap "round";
      beginPath; moveTo (x o) (y o); lineTo (x (tip o)) (y (tip o)); stroke;
      beginPath; moveTo (x (tip o)) (y (tip o)); lineTo (x (left o)) (y (left o));
      lineTo (x (right o)) (y (right o)); closePath; fill; restore ] in
  drawOverlay (Some project) (Some arrow) width height
    = drawn (project (longitude arrow, latitude arrow))
  /\ drawOverlay_center (Some arrow) width height
    = drawn (mkPoint (width / 2) (height / 2))
  /\ (forall o, dist o (tip o) = L
               /\ dist (tip o) (left o) = 12 /\ dist (tip o) (right o) = 12)
  /\ (bearingDeg arrow = 0 -> forall o, tip o = mkPoint (x o) (y o - L))
  /\ (bearingDeg arrow = 90 -> forall o, tip o = mkPoint (x o + L) (y o)).
Proof.
  intros Hb HL L theta spread tip left right drawn.
  split; [| split; [| split; [| split]]].
  - apply draw_arrow_points.
  - apply draw_arrow_points.
  - intros o. split; [| split].
    + apply dist_polar. subst L. lra.
    + apply (dist_head (tip o)). lra.
    + apply (dist_head (tip o)). lra.
  - intros E o. subst tip theta. simpl. rewrite E.
    replace (0 * PI / 180) with 0 by lra. rewrite sin_0, cos_0.
    f_equal; ring.
  - intros E o. subst tip theta. simpl. rewrite E.
    replace (90 * PI / 180) with (PI / 2) by lra. rewrite sin_PI2, cos_PI2.
    f_equal; ring.
Qed.

(** Every positive length is the pixel length of some canvas, and
    [lengthMeters] of the arrow has no part in the drawing. *)
Lemma lengthPx_square (L : R) : lengthPx (4 * L) (4 * L) = L.
Proof. unfold lengthPx, Math_min, Rmin. destruct (Rle_dec (4 * L) (4 * L)); lra. Qed.

Lemma drawOverlay_ignores_lengthMeters (map : option (R * R -> Point))
    (la lo b m1 m2 width height : R) :
  drawOverlay map (Some (mkArrow la lo b m1)) width height
  = drawOverlay map (Some (mkArrow la lo b m2)) width height.
Proof. destruct map; reflexivity. Qed.

Lemma lengthPx_400 : lengthPx 400 400 = 100.
Proof. replace 400 with (4 * 100) by lra. apply lengthPx_square. Qed.

Lemma arrow_overlay_geometry_witness :
  0 <= 90 < 360 /\ 0 < lengthPx 400 400
  /\ dist (mkPoint 200 200)
          (mkPoint (200 + lengthPx 400 400 * sin (90 * PI / 180))
                   (200 - lengthPx 400 400 * cos (90 * PI / 180)))
     = lengthPx 400 400.
Proof.
  assert (Hb : 0 <= 90 < 360) by lra.
  assert (HL : 0 < lengthPx 400 400) by (rewrite lengthPx_400; lra).
  split; [exact Hb | split; [exact HL |]].
  destruct (arrow_overlay_geometry (fun _ => mkPoint 200 200) (mkArrow 0 0 90 150)
              400 400 Hb HL) as (_ & _ & H & _).
  exact (proj1 (H (mkPoint 200 200))).
Defined.

(** C4.  The bearing of a click is the [atan2] of the longitude delta
    times the cosine of the centre latitude against the latitude delta,
    in degrees, plus 360 modulo 360: the angle itself where it is not
    negative, the angle plus 360 otherwise, and always in [0,360). *)
Theorem click_bearing_normalized (center click : LngLat)
    (arrow : option ArrowSelection) :
  let deg := Math_atan2 ((lng click - lng center) * cos (lat center * PI / 180))
                        (lat click - lat center) * 180 / PI in
  onMapClick (Some center) click arrow
    = Some (mkArrow (lat click) (lng click) (click_bearing center click) 150)
  /\ click_bearing center click = js_rem (deg + 360) 360
  /\ click_bearing center click = (if Rle_dec 0 deg then deg else deg + 360)
  /\ 0 <= click_bearing center click < 360.
Proof.
  intros deg.
  assert (Hdeg : -180 < deg <= 180) by (apply degrees_bound, Math_atan2_bound).
  assert (E : click_bearing center click = js_rem (deg + 360) 360) by reflexivity.
  split; [reflexivity | split; [exact E | split]].
  - rewrite E. destruct (Rle_dec 0 deg) as [Hpos | Hneg].
    + rewrite js_rem_once; lra.
    + rewrite js_rem_small; lra.
  - rewrite E. apply js_rem_range; lra.
Qed.

End GeometryFacts.

(** ** The JSON codec: a text that was written is read back *)

Module JsFacts.
Import Js.
#[local] Arguments append : simpl nomatch.

(** Decide the comparison of two given characters in the goal. *)
Ltac chars a b :=
  let v := eval vm_compute in (Ascii.eqb a b) in
  replace (Ascii.eqb a b) with v by reflexivity.

Lemma app_empty_r (s : string) : s +:+ "" = s.
Proof. induction s as [| c s IH]; simpl; [reflexivity | now rewrite IH]. Qed.

Lemma app_assoc (a b c : string) : (a +:+ b) +:+ c = a +:+ (b +:+ c).
Proof. induction a as [| x a IH]; simpl; [reflexivity | now rewrite IH]. Qed.

Lemma length_app (a b : string) :
  String.length (a +:+ b) = String.length a + String.length b.
Proof. induction a as [| x a IH]; simpl; [reflexivity | now rewrite IH]. Qed.

(** Induction on JSON values through their lists. *)
Lemma Json_ind_nested (P : Json -> Prop) :
  P JNull ->
  (forall b, P (JBool b)) ->
  (forall m e, P (JNum m e)) ->
  (forall s, P (JStr s)) ->
  (forall l, Forall P l -> P (JArr l)) ->
  (forall ms, Forall (fun kv => P (snd kv)) ms -> P (JObj ms)) ->
  forall j, P j.
Proof.
  intros Hnull Hbool Hnum Hstr Harr Hobj.
  fix IH 1. intros [| b | m e | s | l | ms].
  - exact Hnull.
  - apply Hbool.
  - apply Hnum.
  - apply Hstr.
  - apply Harr. induction l as [| x l IHl]; constructor; [apply IH | exact IHl].
  - apply Hobj. induction ms as [| [k v] ms IHms]; constructor; [apply IH | exact IHms].
Qed.

(** *** Digits *)

Lemma read_uint_no_digit (s : string) : no_digit_head s -> read_uint s = (Nil, s).
Proof. destruct s as [| c r]; simpl; [reflexivity | intros ->; reflexivity]. Qed.

Lemma read_uint_chars (d : uint) (rest : string) :
  no_digit_head rest -> read_uint (uint_chars d +:+ rest) = (d, rest).
Proof.
  intros Hrest.
  induction d as [| d IH | d IH | d IH | d IH | d IH | d IH | d IH | d IH | d IH | d IH];
    simpl; [apply read_uint_no_digit; exact Hrest | ..]; now rewrite IH.
Qed.

(** The digits of a number start with a zero only for zero itself. *)
Lemma to_uint_head (n : N) :
  match N.to_uint n with
  | Nil => False
  | D0 Nil => n = 0%N
  | D0 _ => False
  | _ => True
  end.
Proof.
  pose proof (DecimalN.Unsigned.of_to n) as Hof.
  pose proof (DecimalN.Unsigned.to_of (N.to_uint n)) as Hto.
  rewrite Hof in Hto.
  set (u := N.to_uint n) in *.
  unfold unorm in Hto.
  pose proof (nzhead_nonzero u) as Hnz.
  destruct (nzhead u) as [| d | | | | | | | | |] eqn:E;
    rewrite Hto; try exact I.
  - rewrite Hto in Hof. simpl in Hof. now symmetry.
  - exfalso. now apply (Hnz d).
Qed.

Lemma render_N_nonempty (n : N) :
  exists c r, render_N n = String c r /\ digit_of_char c <> None.
Proof.
  unfold render_N. pose proof (to_uint_head n) as H.
  destruct (N.to_uint n); simpl; [contradiction | ..];
    eexists _, _; (split; [reflexivity | discriminate]).
Qed.

(** Reading back the digits of a natural number. *)
Lemma read_render_N (n : N) (rest : string) :
  no_digit_head rest ->
  exists u, read_uint (render_N n +:+ rest) = (u, rest)
            /\ N.of_uint u = n
            /\ bad_int u = false /\ is_nil u = false.
Proof.
  intros Hrest. exists (N.to_uint n). unfold render_N.
  rewrite read_uint_chars by exact Hrest.
  split; [reflexivity | split; [apply DecimalN.Unsigned.of_to |]].
  pose proof (to_uint_head n) as H.
  destruct (N.to_uint n) as [| d | | | | | | | | |]; try contradiction;
    try (split; reflexivity).
  destruct d; try contradiction. split; reflexivity.
Qed.

Lemma digit_not_sign (c : ascii) :
  digit_of_char c <> None -> Ascii.eqb c "-" = false /\ Ascii.eqb c "+" = false.
Proof.
  intros H. split; apply Bool.not_true_is_false; intros E;
    apply Ascii.eqb_eq in E; subst c; now apply H.
Qed.

(** Reading back a signed integer, with either reader of the sign. *)
Lemma read_render_Z (z : Z) (tail : string) :
  no_digit_head tail ->
  exists neg s1 u,
    read_sign (render_Z z +:+ tail) = (neg, s1)
    /\ read_exp_sign (render_Z z +:+ tail) = (neg, s1)
    /\ read_uint s1 = (u, tail)
    /\ signed neg (N.of_uint u) = z
    /\ bad_int u = false /\ is_nil u = false.
Proof.
  intros Ht. destruct z as [| p | p].
  - exists false, ("0" +:+ tail), (D0 Nil). simpl.
    repeat split; try reflexivity.
    apply (read_uint_chars (D0 Nil)); exact Ht.
  - destruct (read_render_N (N.pos p) tail Ht) as (u & Hr & Hof & Hbad & Hnil).
    destruct (render_N_nonempty (N.pos p)) as (c & r & Ec & Hc).
    destruct (digit_not_sign c Hc) as [Hm Hp].
    exists false, (render_N (N.pos p) +:+ tail), u.
    change (render_Z (Z.pos p)) with (render_N (N.pos p)).
    repeat split; try assumption.
    + rewrite Ec. simpl. now rewrite Hm.
    + rewrite Ec. simpl. now rewrite Hm, Hp.
    + unfold signed. now rewrite Hof.
  - destruct (read_render_N (N.pos p) tail Ht) as (u & Hr & Hof & Hbad & Hnil).
    exists true, (render_N (N.pos p) +:+ tail), u.
    repeat split; try assumption; try reflexivity.
    unfold signed. now rewrite Hof.
Qed.

Lemma number_follow_no_digit (s : string) : number_follow s -> no_digit_head s.
Proof. destruct s; simpl; tauto. Qed.

Lemma read_frac_none (s : string) : number_follow s -> read_frac s = Some (None, s).
Proof. destruct s as [| c r]; simpl; [reflexivity |]. now intros (_ & -> & _). Qed.

Lemma read_exp_none (s : string) : number_follow s -> read_exp s = Some (0%Z, s).
Proof. destruct s as [| c r]; simpl; [reflexivity |]. now intros (_ & _ & ->). Qed.

Lemma parse_render_number (m e : Z) (rest : string) :
  number_follow rest ->
  parse_number (render_number m e +:+ rest) = Some (m, e, rest).
Proof.
  intros Hrest. unfold render_number. rewrite app_assoc.
  destruct (e =? 0)%Z eqn:He.
  - apply Z.eqb_eq in He. subst e. simpl.
    destruct (read_render_Z m rest (number_follow_no_digit _ Hrest))
      as (neg & s1 & u & Hs & _ & Hu & Hv & Hbad & _).
    unfold parse_number. rewrite Hs, Hu, Hbad.
    rewrite (read_frac_none _ Hrest), (read_exp_none _ Hrest).
    now rewrite Hv.
  - simpl.
    destruct (read_render_Z e rest (number_follow_no_digit _ Hrest))
      as (eneg & r1 & eu & _ & Hes & Heu & Hev & _ & Henil).
    destruct (read_render_Z m (String "e" (render_Z e +:+ rest)) eq_refl)
      as (neg & s1 & u & Hs & _ & Hu & Hv & Hbad & _).
    unfold parse_number. rewrite Hs, Hu, Hbad.
    simpl. rewrite Hes, Heu, Henil, Hv, Hev.
    now rewrite Z.sub_0_r.
Qed.

Lemma render_number_head (m e : Z) :
  exists c r, render_number m e = String c r
              /\ (Ascii.eqb c "-" = true \/ digit_of_char c <> None).
Proof.
  unfold render_number. destruct m as [| p | p].
  - exists "0"%char. eexists. split; [reflexivity | right; discriminate].
  - change (render_Z (Z.pos p)) with (render_N (N.pos p)).
    destruct (render_N_nonempty (N.pos p)) as (c & r & -> & Hc).
    exists c. eexists. split; [reflexivity | now right].
  - exists "-"%char. eexists. split; [reflexivity | now left].
Qed.

(** *** String literals *)

Lemma parse_escape_char (c : ascii) (t : string) :
  parse_chars (escape_char c +:+ t)
  = match parse_chars t with
    | Some (s, r) => Some (String c s, r)
    | None => None
    end.
Proof. destruct c as [[] [] [] [] [] [] [] []]; reflexivity. Qed.

Lemma parse_escape (s rest : string) :
  parse_chars (escape s +:+ String dquote rest) = Some (s, rest).
Proof.
  induction s as [| c s IH]; [reflexivity |].
  simpl. rewrite app_assoc, parse_escape_char, IH. reflexivity.
Qed.

Lemma parse_quote (s rest : string) :
  exists r, quote s +:+ rest = String dquote r /\ parse_chars r = Some (s, rest).
Proof.
  exists (escape s +:+ String dquote rest). split.
  - unfold quote. simpl. now rewrite app_assoc.
  - apply parse_escape.
Qed.

(** *** Values *)

Lemma skip_ws_head (c : ascii) (r : string) :
  is_ws c = false -> skip_ws (String c r) = String c r.
Proof. intros H. simpl. now rewrite H. Qed.

Lemma number_head_plain (c : ascii) :
  Ascii.eqb c "-" = true \/ digit_of_char c <> None ->
  is_ws c = false /\ Ascii.eqb c "n" = false /\ Ascii.eqb c "t" = false
  /\ Ascii.eqb c "f" = false /\ Ascii.eqb c dquote = false
  /\ Ascii.eqb c "[" = false /\ Ascii.eqb c "{" = false
  /\ Ascii.eqb c "]" = false /\ Ascii.eqb c "}" = false.
Proof.
  destruct c as [[] [] [] [] [] [] [] []]; simpl; intros [H | H];
    try discriminate H; try (exfalso; apply H; reflexivity);
    repeat split; reflexivity.
Qed.

Lemma follow_number (s : string) : follow s -> number_follow s.
Proof.
  destruct s as [| c r]; simpl; [trivial |].
  intros [-> | [-> | ->]]; repeat split; reflexivity.
Qed.

Lemma follow_skip_ws (s : string) : follow s -> skip_ws s = s.
Proof.
  destruct s as [| c r]; simpl; [trivial |].
  intros [-> | [-> | ->]]; reflexivity.
Qed.

(** The first character of a written value is no white space and no
    closing bracket. *)
Lemma render_head (j : Json) :
  exists c r, render j = String c r
              /\ is_ws c = false /\ Ascii.eqb c "]" = false.
Proof.
  destruct j as [| [] | m e | s | l | ms]; simpl;
    try (eexists _, _; repeat split; reflexivity).
  destruct (render_number_head m e) as (c & r & -> & Hc).
  destruct (number_head_plain c Hc) as (? & _ & _ & _ & _ & _ & _ & ? & _).
  now exists c, r.
Qed.

Lemma join_comma_one (a : string) : join_comma [a] = a.
Proof. simpl. apply app_empty_r. Qed.

Lemma join_comma_more (a b : string) (l : list string) :
  join_comma (a :: b :: l) = a +:+ String "," (join_comma (b :: l)).
Proof. reflexivity. Qed.

Lemma parse_render_elements (l : list Json) :
  Forall reads_back l -> l <> [] ->
  forall fuel rest,
    size_elems l <= fuel ->
    parse_elements fuel (join_comma (map render l) +:+ String "]" rest)
    = Some (l, rest).
Proof.
  induction 1 as [| x xs Hx Hxs IH]; [congruence |].
  intros _ fuel rest Hfuel. simpl in Hfuel.
  destruct fuel as [| f]; [lia |].
  destruct xs as [| y ys].
  - cbn [map]. rewrite join_comma_one. cbn [parse_elements].
    rewrite (Hx f (String "]" rest)); [| lia | simpl; tauto].
    reflexivity.
  - cbn [map]. rewrite join_comma_more, app_assoc.
    change (map render (y :: ys)) with (render y :: map render ys) in IH.
    set (tl := join_comma (render y :: map render ys)) in *.
    change ((String "," tl) +:+ String "]" rest)
      with (String "," (tl +:+ String "]" rest)).
    cbn [parse_elements].
    rewrite (Hx f (String "," (tl +:+ String "]" rest))); [| lia | simpl; tauto].
    rewrite skip_ws_head by reflexivity. chars ","%char ","%char.
    rewrite IH; [reflexivity | discriminate |].
    simpl in *. lia.
Qed.

Lemma parse_render_members (ms : list (string * Json)) :
  Forall (fun kv => reads_back (snd kv)) ms -> ms <> [] ->
  forall fuel rest,
    size_members ms <= fuel ->
    parse_members fuel (join_comma (map member_text ms) +:+ String "}" rest)
    = Some (ms, rest).
Proof.
  induction 1 as [| [k v] xs Hx Hxs IH]; [congruence |].
  intros _ fuel rest Hfuel. simpl in Hfuel, Hx.
  destruct fuel as [| f]; [lia |].
  assert (Hmember : forall tail,
             follow tail ->
             parse_members (S f) (member_text (k, v) +:+ tail)
             = match skip_ws tail with
               | String c r' =>
                   if Ascii.eqb c ","
                   then match parse_members f r' with
                        | Some (ms, r'') => Some ((k, v) :: ms, r'')
                        | None => None
                        end
                   else if Ascii.eqb c "}" then Some ([(k, v)], r') else None
               | EmptyString => None
               end).
  { intros tail Htail. unfold member_text. cbn [fst snd].
    rewrite app_assoc.
    destruct (parse_quote k (String ":" (render v) +:+ tail)) as (r & Eq & Hr).
    rewrite Eq. cbn [parse_members]. rewrite skip_ws_head by reflexivity.
    chars dquote dquote. rewrite Hr.
    change (String ":" (render v) +:+ tail) with (String ":" (render v +:+ tail)).
    rewrite skip_ws_head by reflexivity. chars ":"%char ":"%char.
    rewrite (Hx f tail); [reflexivity | lia | exact Htail]. }
  destruct xs as [| y ys].
  - cbn [map]. rewrite join_comma_one.
    rewrite Hmember by (simpl; tauto). reflexivity.
  - cbn [map]. rewrite join_comma_more, app_assoc.
    change (map member_text (y :: ys)) with (member_text y :: map member_text ys) in IH.
    set (tl := join_comma (member_text y :: map member_text ys)) in *.
    change ((String "," tl) +:+ String "}" rest)
      with (String "," (tl +:+ String "}" rest)).
    rewrite Hmember by (simpl; tauto).
    rewrite skip_ws_head by reflexivity. chars ","%char ","%char.
    rewrite IH; [reflexivity | discriminate |].
    simpl in *. lia.
Qed.

Lemma parse_render_value (j : Json) : reads_back j.
Proof.
  induction j as [| b | m e | s | l IHl | ms IHms] using Json_ind_nested;
    intros fuel rest Hfuel Hrest; (destruct fuel as [| f]; [simpl in Hfuel; lia |]).
  - reflexivity.
  - destruct b; reflexivity.
  - destruct (render_number_head m e) as (c & r & Ec & Hc).
    destruct (number_head_plain c Hc) as (Hw & Hn & Ht & Hf & Hq & Ha & Ho & _).
    pose proof (parse_render_number m e rest (follow_number _ Hrest)) as Hnum.
    cbn [render]. cbn [render] in Hnum. rewrite Ec in *.
    change (String c r +:+ rest) with (String c (r +:+ rest)) in *.
    cbn [parse_value]. rewrite skip_ws_head by exact Hw.
    rewrite Hn, Ht, Hf, Hq, Ha, Ho, Hnum. reflexivity.
  - cbn [render].
    destruct (parse_quote s rest) as (r & Eq & Hr). rewrite Eq.
    cbn [parse_value]. rewrite skip_ws_head by reflexivity.
    chars dquote "n"%char. chars dquote "t"%char. chars dquote "f"%char.
    chars dquote dquote. rewrite Hr. reflexivity.
  - cbn [render].
    change (String "[" (join_comma (map render l) +:+ "]") +:+ rest)
      with (String "[" ((join_comma (map render l) +:+ "]") +:+ rest)).
    rewrite app_assoc.
    change ("]" +:+ rest) with (String "]" rest).
    cbn [parse_value]. rewrite skip_ws_head by reflexivity.
    chars "["%char "n"%char. chars "["%char "t"%char. chars "["%char "f"%char.
    chars "["%char dquote. chars "["%char "["%char.
    destruct l as [| x xs].
    + reflexivity.
    + pose proof (parse_render_elements (x :: xs) IHl ltac:(discriminate) f rest) as He.
      cbn [map] in *.
      destruct (render_head x) as (c & r & Ec & Hw & Hc).
      assert (Ehead : exists r', join_comma (render x :: map render xs) +:+ String "]" rest
                                 = String c r').
      { destruct xs; cbn [map]; [rewrite join_comma_one | rewrite join_comma_more];
          rewrite Ec; eexists; reflexivity. }
      destruct Ehead as (r' & Ehead). rewrite Ehead in *.
      rewrite skip_ws_head by exact Hw. rewrite Hc.
      rewrite He; [reflexivity |]. simpl in Hfuel. unfold size_elems. simpl. lia.
  - cbn [render].
    change (map (fun kv => quote (fst kv) +:+ String ":" (render (snd kv))) ms)
      with (map member_text ms).
    change (String "{" (join_comma (map member_text ms) +:+ "}") +:+ rest)
      with (String "{" ((join_comma (map member_text ms) +:+ "}") +:+ rest)).
    rewrite app_assoc.
    change ("}" +:+ rest) with (String "}" rest).
    cbn [parse_value]. rewrite skip_ws_head by reflexivity.
    chars "{"%char "n"%char. chars "{"%char "t"%char. chars "{"%char "f"%char.
    chars "{"%char dquote. chars "{"%char "["%char. chars "{"%char "{"%char.
    destruct ms as [| [k v] xs].
    + reflexivity.
    + pose proof (parse_render_members ((k, v) :: xs) IHms ltac:(discriminate) f rest) as He.
      cbn [map] in *.
      assert (Ehead : exists r', join_comma (member_text (k, v) :: map member_text xs)
                                 +:+ String "}" rest
                                 = String dquote r').
      { destruct xs; cbn [map]; [rewrite join_comma_one | rewrite join_comma_more];
          eexists; reflexivity. }
      destruct Ehead as (r' & Ehead). rewrite Ehead in *.
      rewrite skip_ws_head by reflexivity.
      chars dquote "}"%char.
      rewrite He; [reflexivity |]. simpl in Hfuel. unfold size_members. simpl. lia.
Qed.

(** The fuel of [parse] is enough for a text that [render] wrote. *)
Lemma size_join (A : Type) (f : A -> string) (g : A -> nat) (l : list A) :
  Forall (fun a => g a <= String.length (f a)) l ->
  fold_right (fun a n => S (g a + n)) 0 l
  <= String.length (join_comma (map f l)) + 1.
Proof.
  induction 1 as [| a l Ha Hl IH]; [simpl; lia |].
  destruct l as [| b l].
  - cbn [map fold_right]. rewrite join_comma_one. lia.
  - cbn [map fold_right] in *. rewrite join_comma_more, length_app.
    cbn [String.length]. lia.
Qed.

Lemma size_text (j : Json) : size j <= String.length (render j).
Proof.
  induction j as [| b | m e | s | l IHl | ms IHms] using Json_ind_nested.
  - simpl. lia.
  - destruct b; simpl; lia.
  - cbn [render size]. destruct (render_number_head m e) as (c & r & -> & _).
    simpl. lia.
  - simpl. lia.
  - cbn [render size String.length]. rewrite length_app.
    pose proof (size_join Json render size l IHl). simpl String.length. lia.
  - cbn [render size String.length]. rewrite length_app.
    change (map (fun kv => quote (fst kv) +:+ String ":" (render (snd kv))) ms)
      with (map member_text ms).
    assert (H : Forall (fun kv => size (snd kv) <= String.length (member_text kv)) ms).
    { eapply List.Forall_impl; [| exact IHms]. intros [k v] Hv. unfold member_text.
      cbn [fst snd] in *. rewrite length_app. cbn [String.length]. lia. }
    pose proof (size_join _ member_text (fun kv => size (snd kv)) ms H).
    simpl String.length. lia.
Qed.

(** Every value is read back from its text. *)
Theorem parse_render (j : Json) : parse (render j) = Some j.
Proof.
  unfold parse.
  pose proof (parse_render_value j (S (String.length (render j))) "") as H.
  rewrite app_empty_r in H. rewrite H; [reflexivity | | exact I].
  pose proof (size_text j). lia.
Qed.

(** A value that came out of a JSON text is written as it is. *)
Lemma toJSON_of_json (j : Json) : toJSON (of_json j) = Some j.
Proof.
  induction j as [| b | m e | s | l IHl | ms IHms] using Json_ind_nested;
    try reflexivity.
  - cbn [of_json toJSON]. do 2 f_equal.
    induction IHl as [| x l Hx _ IH]; [reflexivity |].
    cbn [map]. rewrite Hx. now rewrite IH.
  - cbn [of_json toJSON]. do 2 f_equal.
    induction IHms as [| [k v] l Hx _ IH]; [reflexivity |].
    cbn [map flat_map fst snd] in *. rewrite Hx. cbn [app]. now rewrite IH.
Qed.

Lemma stored_copy_of_json (j : Json) : stored_copy (of_json j) = of_json j.
Proof. unfold stored_copy. now rewrite toJSON_of_json. Qed.

(** [JSON.parse(JSON.stringify(v))] of an array is the array of the
    stored copies of its elements. *)
Lemma parse_stringify_array (l : list JsVal) :
  exists text, JSON_stringify (VArr l) = Some text
               /\ JSON_parse text = Ok (VArr (map stored_copy l)).
Proof.
  unfold JSON_stringify, JSON_parse. cbn [toJSON].
  eexists. split; [reflexivity |].
  rewrite parse_render. cbn [of_json]. rewrite map_map. do 2 f_equal.
  apply map_ext. intros x. unfold stored_copy. now destruct (toJSON x).
Qed.

Lemma stringify_array_truthy (l : list JsVal) (text : string) :
  JSON_stringify (VArr l) = Some text -> truthy (Some text) = Some text.
Proof.
  unfold JSON_stringify. cbn [toJSON render]. intros [= <-]. reflexivity.
Qed.

End JsFacts.

(** ** The history store *)

Module HistoryFacts.
Import Js Storage UseHistory JsFacts Samples.

Lemma loadHistory_total (w : Window) : exists l, loadHistory w = Ok l.
Proof.
  destruct w as [ls |]; [| now exists []].
  unfold loadHistory.
  destruct (truthy (ls !! KEY)) as [raw |]; [| now exists []].
  destruct (JSON_parse raw) as [[| | | | | l |] | e]; simpl; eauto.
Qed.

Lemma loadHistory_text (w : Window) (raw : string) :
  stored_text w = Some raw ->
  loadHistory w = Ok (match parse raw with
                      | Some (JArr l) => map of_json l
                      | _ => []
                      end).
Proof.
  destruct w as [ls |]; [| discriminate]. simpl. intros E.
  unfold loadHistory. rewrite E. unfold truthy.
  destruct (String.eqb raw "") eqn:Eraw.
  - apply String.eqb_eq in Eraw. subst raw. reflexivity.
  - unfold JSON_parse. destruct (parse raw) as [[| | | | |] |]; reflexivity.
Qed.

(** What [loadHistory] returns came out of a JSON text. *)
Lemma loadHistory_json (w : Window) (l : list JsVal) :
  loadHistory w = Ok l -> exists js, l = map of_json js.
Proof.
  destruct (stored_text w) as [raw |] eqn:E.
  - rewrite (loadHistory_text w raw E).
    destruct (parse raw) as [[| | | | js |] |]; intros [= <-];
      solve [now exists [] | now exists js].
  - destruct w as [ls |]; [| intros [= <-]; now exists []].
    simpl in E. unfold loadHistory. rewrite E. intros [= <-]. now exists [].
Qed.

Lemma stored_copy_loaded (w : Window) (l : list JsVal) :
  loadHistory w = Ok l -> map stored_copy l = l.
Proof.
  intros H. destruct (loadHistory_json w l H) as (js & ->).
  rewrite map_map. apply map_ext. intros j. apply stored_copy_of_json.
Qed.

(** [saveHistory] writes the text of the whole list under the key. *)
Lemma saveHistory_text (ls : gmap string string) (l : list JsVal) :
  exists text,
    JSON_stringify (VArr l) = Some text
    /\ saveHistory l (Some ls) = Some (<[KEY := text]> ls)
    /\ stored_text (saveHistory l (Some ls)) = Some text.
Proof.
  destruct (parse_stringify_array l) as (text & Hs & _).
  exists text. unfold saveHistory. rewrite Hs. simpl.
  repeat split. apply lookup_insert_eq.
Qed.

Lemma load_save (ls : gmap string string) (l : list JsVal) :
  loadHistory (saveHistory l (Some ls)) = Ok (map stored_copy l).
Proof.
  destruct (parse_stringify_array l) as (text & Hs & Hp).
  destruct (saveHistory_text ls l) as (text' & Hs' & _ & Ht).
  rewrite Hs in Hs'. injection Hs' as <-.
  rewrite (loadHistory_text _ _ Ht).
  unfold JSON_parse in Hp. destruct (parse text) as [[| | | | js |] |]; try discriminate.
  now injection Hp as <-.
Qed.

(** A history that was loaded and is saved again loads as it was. *)
Lemma save_loaded (ls : gmap string string) (w : Window) (l : list JsVal) :
  loadHistory w = Ok l -> loadHistory (saveHistory l (Some ls)) = Ok l.
Proof. intros H. rewrite load_save. now rewrite (stored_copy_loaded w l H). Qed.

(** After the effect of mounting, the list of the hook is the stored
    one. *)
Lemma mount_loaded (st st' : State) :
  mount st = Ok st' -> loadHistory (window st') = Ok (items st').
Proof.
  unfold mount. destruct (loadHistory (window st)) as [l |] eqn:E; [| discriminate].
  intros [= <-]. exact E.
Qed.

Lemma filterM_objects (id : string) (l : list JsVal) :
  Forall (fun v => id_of v <> None) l ->
  filterM (fun r => i ← get_prop r "id"; Ok (strict_neq_str i id)) l
  = Ok (List.filter (keeps id) l).
Proof.
  induction 1 as [| v l Hv _ IH]; [reflexivity |].
  cbn [filterM List.filter]. rewrite IH.
  destruct v; try (exfalso; now apply Hv); reflexivity.
Qed.

Lemma filter_keeps_others (id : string) (l : list JsVal) :
  Forall (fun x => exists i, id_of x = Some i /\ i <> VStr id) l ->
  List.filter (keeps id) l = l.
Proof.
  induction 1 as [| v l (i & Hi & Hne) _ IH]; [reflexivity |].
  cbn [List.filter]. unfold keeps at 1. rewrite Hi, IH.
  destruct i; try reflexivity.
  unfold strict_neq_str. destruct (String.eqb s id) eqn:E; [| reflexivity].
  apply String.eqb_eq in E. congruence.
Qed.

Lemma filter_removes_one (id : string) (l1 l2 : list JsVal) (e : JsVal) :
  id_of e = Some (VStr id) ->
  Forall (fun x => exists i, id_of x = Some i /\ i <> VStr id) (l1 ++ l2) ->
  List.filter (keeps id) (l1 ++ e :: l2) = l1 ++ l2.
Proof.
  intros He Hall. apply Forall_app in Hall as [H1 H2].
  rewrite List.filter_app. cbn [List.filter].
  rewrite (filter_keeps_others id l1 H1), (filter_keeps_others id l2 H2).
  unfold keeps. rewrite He. simpl. now rewrite String.eqb_refl.
Qed.

Lemma remove_objects (id : string) (prev : list JsVal) (w : Window) :
  Forall (fun v => id_of v <> None) prev ->
  remove id (mkState prev w)
  = Ok (mkState (List.filter (keeps id) prev)
                (saveHistory (List.filter (keeps id) prev) w)).
Proof.
  intros H. unfold remove. cbn [items window].
  now rewrite (filterM_objects id prev H).
Qed.

Lemma removeResult_objects (id : string) (loaded : list JsVal) (w : Window) :
  loadHistory w = Ok loaded ->
  Forall (fun v => id_of v <> None) loaded ->
  removeResult id w = Ok (saveHistory (List.filter (keeps id) loaded) w).
Proof.
  intros Hl H. unfold removeResult. rewrite Hl.
  change (Ok loaded ≫= ?k) with (k loaded). cbv beta.
  now rewrite (filterM_objects id loaded H).
Qed.

(** *** Results through JSON *)

Lemma as_strs_copy (l : list string) :
  Types.as_strs (map of_json
             (map (fun x => match toJSON x with Some j => j | None => JNull end)
                  (map VStr l)))
  = Some l.
Proof. induction l as [| s l IH]; [reflexivity |]. cbn [map]. simpl. now rewrite IH. Qed.

(** A result with finite numbers, read from its stored copy. *)
Lemma read_stored_result (r : Types.PovResult) :
  Types.finite_result r = true -> Types.read_result (stored_copy (Types.js_result r)) = Some r.
Proof.
  destruct r as [i c [p [la lo b len] [z [cla clo] [n s e w] st]] ms im mo sl].
  unfold Types.finite_result, Types.finite_arrow, Types.finite_map, Types.finite_bounds. cbn.
  intros H.
  repeat match type of H with
         | context [is_finite ?x] =>
             destruct x; cbn in H; try discriminate H
         end.
  destruct mo as [mo |], sl as [sl |]; unfold stored_copy; cbn;
    rewrite ?as_strs_copy; reflexivity.
Qed.

Lemma json_roundtrip_stored (r : Types.PovResult) :
  json_roundtrip r = Types.read_result (stored_copy (Types.js_result r)).
Proof.
  unfold json_roundtrip, JSON_stringify, JSON_parse, stored_copy.
  destruct (toJSON (Types.js_result r)) as [j |] eqn:E; [| discriminate].
  now rewrite parse_render.
Qed.

Lemma appendResult_loaded (item : JsVal) (before : list JsVal) (w : Window) :
  loadHistory w = Ok before ->
  appendResult item w = Ok (saveHistory (item :: before) w).
Proof. intros Hl. unfold appendResult. now rewrite Hl. Qed.

(** *** The write with the quota of the browser *)




Lemma two_entries_loaded :
  loadHistory (Some two_entries) = Ok [VObj [("id", VStr "a")]; VObj [("id", VStr "b")]].
Proof. vm_compute. reflexivity. Qed.




(** C6.  Where one entry of the history has the identifier and no
    other entry has it, [remove] (the hook) and [removeResult] (the
    store) followed by a load give the history without that entry, the
    other entries in their order. *)
Theorem remove_then_load (ls : gmap string string) (l1 l2 : list JsVal)
    (e : JsVal) (id : string) :
  id_of e = Some (VStr id) ->
  Forall (fun x => exists i, id_of x = Some i /\ i <> VStr id) (l1 ++ l2) ->
  (exists st',
      remove id (mkState (l1 ++ e :: l2) (Some ls)) = Ok st'
      /\ items st' = l1 ++ l2
      /\ loadHistory (window st') = Ok (map stored_copy (l1 ++ l2)))
  /\ (loadHistory (Some ls) = Ok (l1 ++ e :: l2) ->
      exists w',
        removeResult id (Some ls) = Ok w'
        /\ loadHistory w' = Ok (l1 ++ l2)).
Proof.
  intros He Hall.
  assert (Hobj : Forall (fun v => id_of v <> None) (l1 ++ e :: l2)).
  { apply Forall_app in Hall as [H1 H2]. apply Forall_app. split; [| constructor].
    - eapply List.Forall_impl; [| exact H1]. intros x (i & -> & _). discriminate.
    - rewrite He. discriminate.
    - eapply List.Forall_impl; [| exact H2]. intros x (i & -> & _). discriminate. }
  split.
  - eexists. rewrite (remove_objects id _ _ Hobj).
    rewrite (filter_removes_one id l1 l2 e He Hall).
    split; [reflexivity |]. split; [reflexivity |]. apply load_save.
  - intros Hload. eexists. rewrite (removeResult_objects id _ _ Hload Hobj).
    rewrite (filter_removes_one id l1 l2 e He Hall).
    split; [reflexivity |]. rewrite load_save.
    pose proof (stored_copy_loaded _ _ Hload) as Hc.
    rewrite map_app in Hc. cbn [map] in Hc.
    apply app_inj_1 in Hc as [H1 H2]; [| now rewrite length_map].
    injection H2 as _ H2. now rewrite map_app, H1, H2.
Qed.

Lemma remove_then_load_witness :
  exists w',
    removeResult "a" (Some two_entries) = Ok w'
    /\ loadHistory w' = Ok ([] ++ [VObj [("id", VStr "b")]]).
Proof.
  refine (proj2 (remove_then_load two_entries [] [VObj [("id", VStr "b")]]
                   (VObj [("id", VStr "a")]) "a" eq_refl _) two_entries_loaded).
  repeat constructor. exists (VStr "b"). split; [reflexivity | discriminate].
Defined.

(** C7.  [loadHistory] never throws, and it returns the empty list
    where the key is missing, where its text is not JSON and where the
    text is JSON but no array. *)
Theorem loadHistory_tolerant (w : Window) :
  (exists l, loadHistory w = Ok l)
  /\ (stored_text w = None
      \/ (exists raw, stored_text w = Some raw
                      /\ (parse raw = None
                          \/ exists j, parse raw = Some j /\ forall l, j <> JArr l)) ->
      loadHistory w = Ok []).
Proof.
  split; [apply loadHistory_total |].
  intros [Hnone | (raw & Hraw & Hbad)].
  - destruct w as [ls |]; [| reflexivity]. simpl in Hnone.
    unfold loadHistory. now rewrite Hnone.
  - rewrite (loadHistory_text w raw Hraw).
    destruct Hbad as [-> | (j & -> & Hj)]; [reflexivity |].
    destruct j; try reflexivity. now destruct (Hj l).
Qed.

Lemma loadHistory_tolerant_witness :
  loadHistory (Some {[ KEY := "{oops" ]}) = Ok []
  /\ loadHistory (Some {[ KEY := dq "{'id':'a'}" ]}) = Ok []
  /\ loadHistory (Some ∅) = Ok [].
Proof.
  split; [| split].
  - apply (proj2 (loadHistory_tolerant (Some {[ KEY := "{oops" ]}))).
    right. exists "{oops". split; [reflexivity | left; reflexivity].
  - apply (proj2 (loadHistory_tolerant (Some {[ KEY := dq "{'id':'a'}" ]}))).
    right. eexists. split; [reflexivity |]. right. eexists.
    split; [vm_compute; reflexivity | discriminate].
  - apply (proj2 (loadHistory_tolerant (Some ∅))). left. reflexivity.
Defined.

(** C8.  Each mutation of the hook writes the text of its new list
    under the key in the same step: after [add], [remove] and [clear]
    the stored text is the JSON text of the new list, and a load gives
    the new list as JSON gives it back. *)
Theorem mutations_write_through (ls : gmap string string)
    (prev : list JsVal) (item : JsVal) (id : string) :
  let st := mkState prev (Some ls) in
  let in_step st' :=
    stored_text (window st') = JSON_stringify (VArr (items st'))
    /\ loadHistory (window st') = Ok (map stored_copy (items st')) in
  in_step (add item st)
  /\ in_step (clear st)
  /\ match remove id st with
     | Ok st' => in_step st'
     | Throw _ => True
     end.
Proof.
  intros st in_step.
  assert (H : forall l, in_step (mkState l (saveHistory l (Some ls)))).
  { intros l. unfold in_step. cbn [items window].
    destruct (saveHistory_text ls l) as (text & Hs & _ & Ht).
    split; [now rewrite Hs, Ht | apply load_save]. }
  split; [apply H | split; [apply H |]].
  unfold remove. subst st. cbn [items window].
  match goal with |- context [filterM ?p prev] => destruct (filterM p prev) as [next | e] end;
    [apply H | exact I].
Qed.

(** C9, as stated, fails: a number that is not finite is written as
    [null]. *)
Lemma json_roundtrip_loses_NaN :
  json_roundtrip result_with_NaN <> Some result_with_NaN
  /\ (exists text v,
        JSON_stringify (Types.js_result result_with_NaN) = Some text
        /\ JSON_parse text = Ok v
        /\ Types.field v "createdAt" = Some VNull).
Proof.
  split.
  - vm_compute. discriminate.
  - eexists _, _. split; [reflexivity |]. split; vm_compute; reflexivity.
Qed.

(** C9, amended.  A result whose numbers are all finite is read back
    from its JSON text field for field, and a history of such results
    is loaded as it was saved. *)
Theorem result_json_roundtrip (r : Types.PovResult) (ls : gmap string string)
    (rs : list Types.PovResult) :
  Types.finite_result r = true ->
  Forall (fun x => Types.finite_result x = true) rs ->
  json_roundtrip r = Some r
  /\ exists l,
      loadHistory (saveHistory (map Types.js_result rs) (Some ls)) = Ok l
      /\ map Types.read_result l = map Some rs.
Proof.
  intros Hr Hrs. split.
  - rewrite json_roundtrip_stored. now apply read_stored_result.
  - eexists. split; [apply load_save |].
    rewrite !map_map.
    induction Hrs as [| x rs Hx _ IH]; [reflexivity |].
    cbn [map]. now rewrite IH, (read_stored_result x Hx).
Qed.

Lemma result_json_roundtrip_witness :
  json_roundtrip result_finite = Some result_finite.
Proof.
  exact (proj1 (result_json_roundtrip result_finite ∅ [result_finite] eq_refl
                  (@List.Forall_cons _ _ result_finite [] eq_refl (@List.Forall_nil _ _)))).
Defined.

End HistoryFacts.

(** ** The generation route *)

Module RouteFacts.
Import Js Route Samples.

(** A caption without the three characters is left as it is. *)
Lemma escaped_plain (s : string) : is_plain s = true -> escaped s = s.
Proof.
  induction s as [| a s IH]; [reflexivity |].
  cbn [is_plain]. intros H. apply andb_prop in H as [Ha Hs].
  apply Bool.negb_true_iff in Ha.
  apply Bool.orb_false_iff in Ha as [Ha Hgt].
  apply Bool.orb_false_iff in Ha as [Hamp Hlt].
  specialize (IH Hs). unfold escaped in *.
  cbn [replace_all]. rewrite Hamp.
  cbn [replace_all]. rewrite Hlt.
  cbn [replace_all]. rewrite Hgt.
  now rewrite IH.
Qed.

Section MockMode.
Variables (env : Env) (w : World) (req : Request).
Hypothesis no_credential :
  credential env = None.

Lemma mock_with_prompt (p : string) :
  prompt req = Some p ->
  generate env w req = (Json200 (randomUUID w) (mock_image p) "mock", []).
Proof.
  intros Hp. unfold generate, POST, try_catchE.
  unfold credential in no_credential. rewrite no_credential, Hp. reflexivity.
Qed.

Lemma mock_without_prompt :
  prompt req = None ->
  generate env w req
  = (Error500 "Cannot read properties of undefined (reading 'replace')", []).
Proof.
  intros Hp. unfold generate, POST, try_catchE.
  unfold credential in no_credential. rewrite no_credential, Hp. reflexivity.
Qed.

(** The caption of a prompt without the three characters is the prompt
    cut at 90 characters. *)
Lemma mock_with_plain_prompt (p : string) :
  prompt req = Some p -> is_plain p = true ->
  generate env w req
  = (Json200 (randomUUID w)
       ("data:image/svg+xml;base64," +:+ base64 (utf8 (mock_svg (slice0 90 p))))
       "mock", []).
Proof.
  intros Hp Hplain. rewrite (mock_with_prompt p Hp).
  unfold mock_image. now rewrite (escaped_plain p Hplain).
Qed.
End MockMode.

Section Attempts.
Variables (w : World) (model : string) (req : Request).

(** The SDK attempt never throws out of its [try]; it logs its call. *)
Lemma sdk_path_run (log : list Call) :
  sdk_path w model req log
  = (Ok (answer_of w model (sdk_image w model req)),
     log ++ [sdk_call model (request_parts req) "image/png"]).
Proof.
  unfold sdk_path, sdk_image, try_catchE, call_generateContent, answer_of.
  unfold mbind, Eff_bind, bindE.
  destruct (generateContent w model (request_parts req) "image/png") as [e | r];
    [reflexivity |].
  now destruct (first_image r) as [[m d] |].
Qed.

(** Nor does the REST attempt: every failure inside is [null]. *)
Lemma rest_run (apiKey : string) (log : list Call) :
  callImagesGenerateREST w apiKey model req log
  = (Ok (answer_of w model (rest_image w apiKey model req)),
     log ++ [fetch_call (rest_url model apiKey) (rest_body req)]).
Proof.
  unfold callImagesGenerateREST, rest_image, try_catchE, call_fetch, answer_of.
  unfold mbind, Eff_bind, bindE. cbv zeta. fold (rest_body req).
  destruct (fetch w (rest_url model apiKey) (rest_body req)) as [e | status [r | e]];
    [reflexivity | |].
  - destruct ((200 <=? status)%N && (status <=? 299)%N); [| reflexivity].
    cbn [negb]. unfold lift. now destruct (first_image r) as [[m d] |].
  - now destruct ((200 <=? status)%N && (status <=? 299)%N).
Qed.
End Attempts.

(** The two attempts, by what each of them yields. *)
Lemma generate_with_key (env : Env) (w : World) (req : Request) (apiKey : string) :
  credential env = Some apiKey ->
  let model := DEFAULT_MODEL env in
  let sdk := sdk_call model (request_parts req) "image/png" in
  let rest := fetch_call (rest_url model apiKey) (rest_body req) in
  generate env w req =
    match sdk_image w model req with
    | Some (m, d) => (Json200 (randomUUID w) (data_url m d) model, [sdk])
    | None =>
        match rest_image w apiKey model req with
        | Some (m, d) => (Json200 (randomUUID w) (data_url m d) model, [sdk; rest])
        | None => (Error500 "Model did not return an image", [sdk; rest])
        end
    end.
Proof.
  intros Hkey model sdk rest.
  unfold generate, POST, try_catchE. unfold credential in Hkey. rewrite Hkey.
  unfold mbind, Eff_bind, bindE. rewrite sdk_path_run. fold model.
  destruct (sdk_image w model req) as [[m d] |]; [reflexivity |].
  cbn [answer_of]. rewrite rest_run.
  now destruct (rest_image w apiKey model req) as [[m d] |].
Qed.

(** C1.  Without credential the route answers a caption with the mock
    image, but not every request: the request that the view builds from
    a blank caption carries no prompt, and the route answers it with
    status 500.  And the caption is cut after it was escaped: 89 letters
    and an ampersand leave the ampersand bare in the image. *)
Theorem mock_mode_fails_on_blank_caption :
  prompt blank_request = None
  /\ generate no_key world_down blank_request
     = (Error500 "Cannot read properties of undefined (reading 'replace')", [])
  /\ generate no_key world_down long_request
     = (Json200 "id-1"
          ("data:image/svg+xml;base64,"
           +:+ base64 (utf8 (mock_svg (letters 89 +:+ "&"))))
          "mock", [])
  /\ slice0 90 (escaped (letters 89 +:+ "&")) = letters 89 +:+ "&"
  /\ escaped (slice0 90 (letters 89 +:+ "&")) = letters 89 +:+ "&amp;".
Proof. repeat split; vm_compute; reflexivity. Qed.

(** C2, as stated, fails: a response of the SDK without image part
    does not end the operation, the REST call is made and its image is
    the answer; and where no attempt brings an image the message
    starts with a capital letter. *)
Lemma response_without_image_is_not_final :
  generateContent world_rest_image (DEFAULT_MODEL with_key)
    (request_parts harbour_request) "image/png" = SdkReturns text_only
  /\ first_image text_only = None
  /\ generate with_key world_rest_image harbour_request
     = (Json200 "id-2" "data:image/png;base64,iVBOR" "gemini-2.5-flash-image-preview",
        [sdk_call (DEFAULT_MODEL with_key) (request_parts harbour_request) "image/png";
         fetch_call (rest_url (DEFAULT_MODEL with_key) "secret")
                    (rest_body harbour_request)])
  /\ fst (generate with_key world_rest_image harbour_request)
     <> Error500 "model did not return an image"
  /\ fst (generate with_key world_no_image harbour_request)
     = Error500 "Model did not return an image"
  /\ fst (generate with_key world_no_image harbour_request)
     <> Error500 "model did not return an image".
Proof.
  split; [reflexivity |]. split; [reflexivity |].
  split; [vm_compute; reflexivity |].
  split; [vm_compute; discriminate |]. split; [vm_compute; reflexivity |].
  vm_compute. discriminate.
Qed.

(** C2, amended.  With a credential the route makes the SDK call and,
    where that call throws or its response has no inline image, one
    REST call; it makes no other call.  The first image found is the
    answer; where neither attempt brings an image (a throw, a status
    outside 200..299 or a response without inline image) the answer is
    status 500 with the message [Model did not return an image]. *)
Theorem two_attempts (env : Env) (w : World) (req : Request) (apiKey : string) :
  credential env = Some apiKey ->
  let model := DEFAULT_MODEL env in
  let sdk := sdk_call model (request_parts req) "image/png" in
  let rest := fetch_call (rest_url model apiKey) (rest_body req) in
  generate env w req
  = match sdk_image w model req with
    | Some (m, d) => (Json200 (randomUUID w) (data_url m d) model, [sdk])
    | None =>
        match rest_image w apiKey model req with
        | Some (m, d) => (Json200 (randomUUID w) (data_url m d) model, [sdk; rest])
        | None => (Error500 "Model did not return an image", [sdk; rest])
        end
    end
  /\ length (snd (generate env w req)) <= 2
  /\ (forall e, generateContent w model (request_parts req) "image/png" = SdkThrows e ->
      snd (generate env w req) = [sdk; rest]).
Proof.
  intros Hkey model sdk rest.
  pose proof (generate_with_key env w req apiKey Hkey) as E. cbv zeta in E.
  fold model in E. fold sdk in E. fold rest in E.
  split; [exact E |]. split.
  - rewrite E. destruct (sdk_image w model req) as [[m d] |]; [simpl; lia |].
    destruct (rest_image w apiKey model req) as [[m d] |]; simpl; lia.
  - intros e He. rewrite E. unfold sdk_image. rewrite He.
    now destruct (rest_image w apiKey model req) as [[m d] |].
Qed.

Lemma two_attempts_witness :
  generate with_key world_down harbour_request
  = (Error500 "Model did not return an image",
     [sdk_call (DEFAULT_MODEL with_key) (request_parts harbour_request) "image/png";
      fetch_call (rest_url (DEFAULT_MODEL with_key) "secret") (rest_body harbour_request)]).
Proof.
  exact (proj1 (two_attempts with_key world_down harbour_request "secret" eq_refl)).
Defined.

(** C10.  Without credential the image of the answer depends on the
    prompt alone: two requests with the same prompt get the same image
    and the same model tag, whatever their arrow, map state and
    snapshot and whatever the collaborators do, and no call leaves the
    route; only the identifier may differ. *)
Theorem mock_image_by_prompt_only (env : Env) (w1 w2 : World) (req1 req2 : Request) :
  credential env = None ->
  prompt req1 = prompt req2 ->
  response_image (fst (generate env w1 req1)) = response_image (fst (generate env w2 req2))
  /\ response_model (fst (generate env w1 req1)) = response_model (fst (generate env w2 req2))
  /\ snd (generate env w1 req1) = [] /\ snd (generate env w2 req2) = []
  /\ (forall p, prompt req1 = Some p ->
        fst (generate env w1 req1) = Json200 (randomUUID w1) (mock_image p) "mock"
        /\ fst (generate env w2 req2) = Json200 (randomUUID w2) (mock_image p) "mock").
Proof.
  intros Hkey Hp.
  destruct (prompt req1) as [p |] eqn:E1; symmetry in Hp.
  - rewrite (mock_with_prompt env w1 req1 Hkey p E1),
            (mock_with_prompt env w2 req2 Hkey p Hp).
    cbn [fst snd response_image response_model].
    split; [reflexivity |]. split; [reflexivity |].
    split; [reflexivity |]. split; [reflexivity |].
    intros q [= <-]. split; reflexivity.
  - rewrite (mock_without_prompt env w1 req1 Hkey E1),
            (mock_without_prompt env w2 req2 Hkey Hp).
    cbn [fst snd response_image response_model].
    split; [reflexivity |]. split; [reflexivity |].
    split; [reflexivity |]. split; [reflexivity |].
    intros q Hq. discriminate Hq.
Qed.

Lemma mock_image_by_prompt_only_witness :
  response_image (fst (generate no_key world_down harbour_request))
  = response_image (fst (generate no_key world_rest_image other_request)).
Proof.
  exact (proj1 (mock_image_by_prompt_only no_key world_down world_rest_image
                  harbour_request other_request eq_refl eq_refl)).
Defined.

End RouteFacts.

(** ** The model of the engine on known values *)

Module Checks.
Import Js Route Samples.

Example base64_vectors :
  List.map (fun s => base64 (utf8 s)) ["f"; "fo"; "foo"; "foob"; "fooba"; "foobar"]
  = ["Zg=="; "Zm8="; "Zm9v"; "Zm9vYg=="; "Zm9vYmE="; "Zm9vYmFy"].
Proof. reflexivity. Qed.

Example escaped_text : escaped "a<b>&c" = "a&lt;b&gt;&amp;c".
Proof. reflexivity. Qed.

Example escaped_entity : escaped "&lt;" = "&amp;lt;".
Proof. reflexivity. Qed.

Example data_url_parts :
  dataUrlToPart "data:image/jpeg;base64,AAAA" = inline_part "image/jpeg" "AAAA"
  /\ dataUrlToPart "data:;base64,AAAA" = inline_part "image/jpeg" ""
  /\ dataUrlToPart "AAAA" = inline_part "image/jpeg" "".
Proof. repeat split. Qed.

Example fixed_digits :
  toFixed 5 (Finite 185204 (-4)) = "18.52040"
  /\ toFixed 4 (Finite (-1224194) (-4)) = "-122.4194"
  /\ toFixed 4 (Finite 123456789 (-8)) = "1.2346"
  /\ toFixed 2 NaN = "NaN".
Proof. repeat split. Qed.

Example rounding :
  Math_round (Finite 25 (-1)) = Finite 3 0
  /\ Math_round (Finite (-25) (-1)) = Finite (-2) 0
  /\ Math_round (Finite 1499 (-1)) = Finite 150 0.
Proof. repeat split. Qed.

Example number_texts :
  List.map num_to_string [Finite 125 (-1); Finite 12 2; Finite (-5) (-3); Finite 1 (-7); Finite 0 0]
  = ["12.5"; "1200"; "-0.005"; "1e-7"; "0"].
Proof. reflexivity. Qed.

Example parse_text :
  parse (dq " [ {'id':'a', 'n':-12.50e3, 'x':[true,false,null], 's':'q\nA\\'} ] ")
  = Some (JArr [JObj [("id", JStr "a"); ("n", JNum (-1250) 1);
                      ("x", JArr [JBool true; JBool false; JNull]);
                      ("s", JStr (String "q" (String "010" (String "A" (String backslash "")))))]]).
Proof. vm_compute. reflexivity. Qed.

Example parse_rejects :
  List.map parse ["01"; "[1,]"; ""; "{"; "nul"; "null x"; "1."; "+1"; "'a'"]
  = [None; None; None; None; None; None; None; None; None].
Proof. vm_compute. reflexivity. Qed.

Example stringify_text :
  JSON_stringify
    (VArr [VUndefined; VNum NaN;
           VObj [("a", VUndefined); ("b", VNum (Finite 3 0)); ("c", VStr "x")]])
  = Some (dq "[null,null,{'b':3,'c':'x'}]").
Proof. vm_compute. reflexivity. Qed.

Example trimmed : trim "  a b  " = "a b" /\ trim "   " = "".
Proof. split; reflexivity. Qed.

Example encoded_component : encodeURIComponent "a b/c" = "a%20b%2Fc".
Proof. reflexivity. Qed.

Example blank_caption_has_no_prompt :
  prompt (MapView.payload "   " arrow_north map_pune None) = None
  /\ prompt (MapView.payload " dusk " arrow_north map_pune None) = Some "dusk".
Proof. split; reflexivity. Qed.

Example empty_key_is_no_credential :
  credential (mkEnv None (Some "") None) = None
  /\ credential (mkEnv (Some "") (Some "k") None) = Some "k"
  /\ credential (mkEnv (Some "g") (Some "k") None) = Some "g".
Proof. repeat split. Qed.

Example first_image_found :
  first_image with_image = Some ("image/png", "iVBOR")
  /\ first_image text_only = None
  /\ first_image (mkGenResponse (Some [])) = None
  /\ first_image (mkGenResponse None) = None.
Proof. repeat split. Qed.

End Checks.

(** ** More on the geometry: where the bearing points, and the head *)

Module GeometryMore.
Import Geometry GeometryFacts Drawing.
Local Open Scope R_scope.

Lemma hypot_pos (x y : R) : x <> 0 \/ y <> 0 -> 0 < sqrt (Rsqr x + Rsqr y).
Proof.
  intros H. apply sqrt_lt_R0.
  pose proof (Rle_0_sqr x). pose proof (Rle_0_sqr y).
  destruct H as [H | H]; [pose proof (Rsqr_pos_lt x H) | pose proof (Rsqr_pos_lt y H)]; lra.
Qed.

Lemma sqrt_slope (x y : R) :
  x <> 0 -> sqrt (1 + Rsqr (y / x)) * Rabs x = sqrt (Rsqr x + Rsqr y).
Proof.
  intros Hx.
  rewrite <- (sqrt_Rsqr_abs x), <- sqrt_mult.
  - f_equal. unfold Rsqr. field. exact Hx.
  - pose proof (Rle_0_sqr (y / x)). lra.
  - apply Rle_0_sqr.
Qed.

(** [Math.atan2 y x] is the angle of the point [(x, y)]. *)
Lemma atan2_angle (y x : R) :
  x <> 0 \/ y <> 0 ->
  sin (Math_atan2 y x) = y / sqrt (Rsqr x + Rsqr y)
  /\ cos (Math_atan2 y x) = x / sqrt (Rsqr x + Rsqr y).
Proof.
  intros Hxy. pose proof (hypot_pos x y Hxy) as Hr.
  set (r := sqrt (Rsqr x + Rsqr y)) in *.
  unfold Math_atan2.
  destruct (Rlt_dec 0 x) as [Hpos | Hnpos].
  - pose proof (sqrt_slope x y ltac:(lra)) as Hs. fold r in Hs.
    rewrite Rabs_right in Hs by lra.
    rewrite sin_atan, cos_atan.
    assert (Hs0 : sqrt (1 + Rsqr (y / x)) = r / x) by (rewrite <- Hs; field; lra).
    rewrite Hs0. split; field; lra.
  - destruct (Rlt_dec x 0) as [Hneg | Hnneg].
    + pose proof (sqrt_slope x y ltac:(lra)) as Hs. fold r in Hs.
      rewrite Rabs_left in Hs by lra.
      assert (Hs0 : sqrt (1 + Rsqr (y / x)) = r / - x) by (rewrite <- Hs; field; lra).
      destruct (Rle_dec 0 y).
      * rewrite neg_sin, neg_cos, sin_atan, cos_atan, Hs0. split; field; lra.
      * unfold Rminus.
        replace (atan (y / x) + - PI) with (- (- atan (y / x) + PI)) by ring.
        rewrite sin_neg, cos_neg, neg_sin, neg_cos, sin_neg, cos_neg.
        rewrite sin_atan, cos_atan, Hs0. split; field; lra.
    + assert (Ex : x = 0) by lra. subst x.
      assert (Er : r = Rabs y).
      { unfold r. rewrite Rsqr_0, Rplus_0_l. apply sqrt_Rsqr_abs. }
      destruct (Rlt_dec 0 y) as [Hy | Hy].
      * rewrite Er, Rabs_right by lra. rewrite sin_PI2, cos_PI2.
        split; field; lra.
      * destruct (Rlt_dec y 0) as [Hy' | Hy'].
        -- rewrite Er, Rabs_left by lra.
           replace (- PI / 2) with (- (PI / 2)) by lra.
           rewrite sin_neg, cos_neg, sin_PI2, cos_PI2. split; field; lra.
        -- exfalso. destruct Hxy as [H | H]; [now apply H | apply H; lra].
Qed.

Lemma atan2_scale (k y x : R) : 0 < k -> Math_atan2 (k * y) (k * x) = Math_atan2 y x.
Proof.
  intros Hk. unfold Math_atan2.
  assert (Hq : x <> 0 -> k * y / (k * x) = y / x) by (intros; field; lra).
  destruct (Rlt_dec 0 x) as [Hx | Hx].
  - destruct (Rlt_dec 0 (k * x)) as [_ | H]; [| exfalso; apply H; nra].
    now rewrite Hq by lra.
  - destruct (Rlt_dec 0 (k * x)) as [H | _]; [exfalso; nra |].
    destruct (Rlt_dec x 0) as [Hx' | Hx'].
    + destruct (Rlt_dec (k * x) 0) as [_ | H]; [| exfalso; apply H; nra].
      rewrite Hq by lra.
      destruct (Rle_dec 0 y), (Rle_dec 0 (k * y)); try reflexivity; exfalso; nra.
    + destruct (Rlt_dec (k * x) 0) as [H | _]; [exfalso; nra |].
      destruct (Rlt_dec 0 y), (Rlt_dec 0 (k * y)); try reflexivity; try (exfalso; nra).
      destruct (Rlt_dec y 0), (Rlt_dec (k * y) 0); try reflexivity; exfalso; nra.
Qed.

(** The bearing of a click, by the sign of the angle. *)
Lemma click_bearing_cases (center click : LngLat) :
  let deg := Math_atan2 ((lng click - lng center) * cos (lat center * PI / 180))
                        (lat click - lat center) * 180 / PI in
  click_bearing center click = deg \/ click_bearing center click = deg + 360.
Proof.
  intros deg.
  assert (Hdeg : -180 < deg <= 180) by (apply degrees_bound, Math_atan2_bound).
  assert (E : click_bearing center click = js_rem (deg + 360) 360) by reflexivity.
  rewrite E. destruct (Rle_dec 0 deg).
  - left. rewrite js_rem_once; lra.
  - right. rewrite js_rem_small; lra.
Qed.


Lemma turn_sin (a : R) : sin (a + 2 * PI) = sin a.
Proof. rewrite sin_plus, sin_2PI, cos_2PI. ring. Qed.

Lemma turn_cos (a : R) : cos (a + 2 * PI) = cos a.
Proof. rewrite cos_plus, sin_2PI, cos_2PI. ring. Qed.

Lemma click_bearing_angle (center click : LngLat) :
  let a := Math_atan2 ((lng click - lng center) * cos (lat center * PI / 180))
                      (lat click - lat center) in
  sin (click_bearing center click * PI / 180) = sin a
  /\ cos (click_bearing center click * PI / 180) = cos a.
Proof.
  intros a. pose proof PI_RGT_0 as Hpi.
  destruct (click_bearing_cases center click) as [E | E]; rewrite E; fold a.
  - replace (a * 180 / PI * PI / 180) with a by (field; lra). now split.
  - replace ((a * 180 / PI + 360) * PI / 180) with (a + 2 * PI) by (field; lra).
    split; [apply turn_sin | apply turn_cos].
Qed.

Lemma draw_arrow_strokes (origin : Point) (b width height : R) :
  let L := lengthPx width height in
  let theta := b * PI / 180 in
  let tip := mkPoint (x origin + L * sin theta) (y origin - L * cos theta) in
  let left := mkPoint (x tip - 12 * sin (theta - PI / 8))
                      (y tip + 12 * cos (theta - PI / 8)) in
  let right := mkPoint (x tip - 12 * sin (theta + PI / 8))
                       (y tip + 12 * cos (theta + PI / 8)) in
  draw_arrow origin b width height = strokes origin tip left right.
Proof.
  intros L theta tip left right. unfold draw_arrow, strokes, headAngle, headLen.
  subst tip left right L theta. simpl.
  rewrite !(Rmult_comm (sin _) (lengthPx _ _)), !(Rmult_comm (cos _) (lengthPx _ _)).
  reflexivity.
Qed.

Lemma lengthPx_bounds (w h : R) :
  0 <= w -> 0 <= h -> 0 <= lengthPx w h /\ lengthPx w h <= w / 4 /\ lengthPx w h <= h / 4.
Proof.
  intros Hw Hh. unfold lengthPx, Math_min.
  pose proof (Rmin_l w h). pose proof (Rmin_r w h).
  assert (0 <= Rmin w h) by (apply Rmin_glb; assumption).
  lra.
Qed.

(** X1.  The bearing of a click points at the click: with [E] the
    longitude delta scaled by the cosine of the centre latitude and [N]
    the latitude delta, not both zero, the sine and the cosine of the
    bearing are [E] and [N] over the length of [(E, N)]. *)
Theorem click_bearing_points_at_click (center click : LngLat) :
  let E := (lng click - lng center) * cos (lat center * PI / 180) in
  let N := lat click - lat center in
  E <> 0 \/ N <> 0 ->
  sin (click_bearing center click * PI / 180) = E / sqrt (Rsqr E + Rsqr N)
  /\ cos (click_bearing center click * PI / 180) = N / sqrt (Rsqr E + Rsqr N).
Proof.
  intros E N H.
  destruct (click_bearing_angle center click) as [Hs Hc]. rewrite Hs, Hc.
  rewrite (Rplus_comm (Rsqr E)).
  apply (atan2_angle E N). tauto.
Qed.

Lemma click_bearing_points_at_click_witness :
  let center := mkLngLat 10 20 in
  let click := mkLngLat 10 21 in
  sin (click_bearing center click * PI / 180)
    = (lng click - lng center) * cos (lat center * PI / 180)
      / sqrt (Rsqr ((lng click - lng center) * cos (lat center * PI / 180))
              + Rsqr (lat click - lat center)).
Proof.
  intros center click.
  apply (click_bearing_points_at_click center click).
  right. simpl. lra.
Defined.

(** X2.  Away from the poles, a click due north of the centre gives the
    bearing 0, due east 90, due south 180 and due west 270; a click on
    the centre itself gives 0. *)
Theorem click_bearing_cardinal (center : LngLat) (d : R) :
  0 < d -> -90 < lat center < 90 ->
  click_bearing center (mkLngLat (lng center) (lat center + d)) = 0
  /\ click_bearing center (mkLngLat (lng center + d) (lat center)) = 90
  /\ click_bearing center (mkLngLat (lng center) (lat center - d)) = 180
  /\ click_bearing center (mkLngLat (lng center - d) (lat center)) = 270
  /\ click_bearing center center = 0.
Proof.
  intros Hd Hlat. pose proof PI_RGT_0 as Hpi.
  assert (Hc : 0 < cos (lat center * PI / 180)).
  { apply cos_gt_0.
    - apply Rmult_lt_reg_r with (180 / PI); [apply Rdiv_lt_0_compat; lra |].
      replace (lat center * PI / 180 * (180 / PI)) with (lat center) by (field; lra).
      replace (- (PI / 2) * (180 / PI)) with (-90) by (field; lra). lra.
    - apply Rmult_lt_reg_r with (180 / PI); [apply Rdiv_lt_0_compat; lra |].
      replace (lat center * PI / 180 * (180 / PI)) with (lat center) by (field; lra).
      replace (PI / 2 * (180 / PI)) with 90 by (field; lra). lra. }
  set (c := cos (lat center * PI / 180)) in *.
  unfold click_bearing; cbn [lng lat]; fold c.
  repeat split.
  - replace ((lng center - lng center) * c) with 0 by ring.
    replace (lat center + d - lat center) with d by ring.
    unfold Math_atan2. destruct (Rlt_dec 0 d); [| lra].
    replace (0 / d) with 0 by (field; lra). rewrite atan_0.
    replace (0 * 180 / PI + 360) with 360 by (field; lra).
    rewrite js_rem_once; lra.
  - replace (lat center - lat center) with 0 by ring.
    replace ((lng center + d - lng center) * c) with (d * c) by ring.
    assert (0 < d * c) by nra.
    unfold Math_atan2.
    destruct (Rlt_dec 0 0); [lra |]. destruct (Rlt_dec 0 0); [lra |].
    destruct (Rlt_dec 0 (d * c)); [| lra].
    replace (PI / 2 * 180 / PI + 360) with 450 by (field; lra).
    rewrite js_rem_once; lra.
  - replace ((lng center - lng center) * c) with 0 by ring.
    replace (lat center - d - lat center) with (- d) by ring.
    unfold Math_atan2. destruct (Rlt_dec 0 (- d)); [lra |].
    destruct (Rlt_dec (- d) 0); [| lra]. destruct (Rle_dec 0 0); [| lra].
    replace (0 / - d) with 0 by (field; lra). rewrite atan_0.
    replace ((0 + PI) * 180 / PI + 360) with 540 by (field; lra).
    rewrite js_rem_once; lra.
  - replace (lat center - lat center) with 0 by ring.
    replace ((lng center - d - lng center) * c) with (- (d * c)) by ring.
    assert (0 < d * c) by nra.
    unfold Math_atan2.
    destruct (Rlt_dec 0 0); [lra |]. destruct (Rlt_dec 0 0); [lra |].
    destruct (Rlt_dec 0 (- (d * c))); [lra |].
    destruct (Rlt_dec (- (d * c)) 0); [| lra].
    replace (- PI / 2 * 180 / PI + 360) with 270 by (field; lra).
    rewrite js_rem_small; lra.
  - replace (lat center - lat center) with 0 by ring.
    replace ((lng center - lng center) * c) with 0 by ring.
    unfold Math_atan2.
    destruct (Rlt_dec 0 0); [lra |].
    replace (0 * 180 / PI + 360) with 360 by (field; lra).
    rewrite js_rem_once; lra.
Qed.

Lemma click_bearing_cardinal_witness :
  click_bearing (mkLngLat 73 18) (mkLngLat (73 + 1) 18) = 90.
Proof.
  refine (proj1 (proj2 (click_bearing_cardinal (mkLngLat 73 18) 1 _ _))).
  - lra.
  - simpl. lra.
Defined.

(** X3.  The bearing depends on the direction of the click only: a click
    [k] times as far from the centre along the same line, [k] positive,
    gives the same bearing. *)
Theorem click_bearing_scale (center click : LngLat) (k : R) :
  0 < k ->
  click_bearing center
    (mkLngLat (lng center + k * (lng click - lng center))
              (lat center + k * (lat click - lat center)))
  = click_bearing center click.
Proof.
  intros Hk. unfold click_bearing; cbn [lng lat].
  replace ((lng center + k * (lng click - lng center) - lng center)
           * cos (lat center * PI / 180))
    with (k * ((lng click - lng center) * cos (lat center * PI / 180))) by ring.
  replace (lat center + k * (lat click - lat center) - lat center)
    with (k * (lat click - lat center)) by ring.
  now rewrite atan2_scale.
Qed.

Lemma click_bearing_scale_witness :
  click_bearing (mkLngLat 0 0) (mkLngLat (0 + 2 * (1 - 0)) (0 + 2 * (1 - 0)))
  = click_bearing (mkLngLat 0 0) (mkLngLat 1 1).
Proof.
  apply (click_bearing_scale (mkLngLat 0 0) (mkLngLat 1 1) 2). lra.
Defined.

(** X4.  Click, then draw, in the view that derives the bearing from the
    click: the shaft runs from the canvas centre to the point a pixel
    length away in the direction of the click, east to the right and
    north upwards. *)
Theorem click_then_draw (center click : LngLat) (prev : option ArrowSelection)
    (w h : R) :
  let E := (lng click - lng center) * cos (lat center * PI / 180) in
  let N := lat click - lat center in
  let r := sqrt (Rsqr E + Rsqr N) in
  let L := lengthPx w h in
  E <> 0 \/ N <> 0 ->
  exists left right,
    drawOverlay_center (onMapClick (Some center) click prev) w h
    = strokes (mkPoint (w / 2) (h / 2))
              (mkPoint (w / 2 + L * (E / r)) (h / 2 - L * (N / r)))
              left right.
Proof.
  intros E N r L H.
  destruct (click_bearing_angle center click) as [Hs Hc].
  destruct (atan2_angle E N) as [Hs' Hc']; [tauto |].
  rewrite (Rplus_comm (Rsqr N)) in Hs', Hc'. fold r in Hs', Hc'.
  cbn [onMapClick drawOverlay_center bearingDeg].
  rewrite draw_arrow_strokes. cbn [x y].
  fold E N in Hs, Hc. rewrite Hs, Hc, Hs', Hc'. fold L.
  eexists _, _. reflexivity.
Qed.

Lemma click_then_draw_witness :
  exists left right,
    drawOverlay_center (onMapClick (Some (mkLngLat 10 20)) (mkLngLat 10 21) None) 400 400
    = strokes (mkPoint (400 / 2) (400 / 2))
        (mkPoint
           (400 / 2 + lengthPx 400 400
              * ((10 - 10) * cos (20 * PI / 180)
                 / sqrt (Rsqr ((10 - 10) * cos (20 * PI / 180)) + Rsqr (21 - 20))))
           (400 / 2 - lengthPx 400 400
              * ((21 - 20)
                 / sqrt (Rsqr ((10 - 10) * cos (20 * PI / 180)) + Rsqr (21 - 20)))))
        left right.
Proof.
  apply (click_then_draw (mkLngLat 10 20) (mkLngLat 10 21) None 400 400).
  right. simpl. lra.
Defined.

(** X5.  The head of the arrow is symmetric about the shaft: the middle
    of its two back points lies on the line of the shaft,
    12 cos(pi/8) pixels behind the end point, and the two back points
    are 24 sin(pi/8) pixels apart, whatever the origin, the bearing and
    the canvas. *)
Theorem arrow_head_symmetric (origin : Point) (b w h : R) :
  let theta := b * PI / 180 in
  exists tip left right,
    draw_arrow origin b w h = strokes origin tip left right
    /\ (x left + x right) / 2 = x tip - 12 * cos (PI / 8) * sin theta
    /\ (y left + y right) / 2 = y tip + 12 * cos (PI / 8) * cos theta
    /\ dist left right = 24 * sin (PI / 8).
Proof.
  intros theta. eexists _, _, _. split; [apply draw_arrow_strokes |].
  fold theta. cbn [x y].
  rewrite sin_minus, sin_plus, cos_minus, cos_plus.
  split; [field | split; [field |]].
  unfold dist. cbn [x y].
  set (t := x origin + lengthPx w h * sin theta).
  set (u := y origin - lengthPx w h * cos theta).
  replace (t - 12 * (sin theta * cos (PI / 8) + cos theta * sin (PI / 8))
           - (t - 12 * (sin theta * cos (PI / 8) - cos theta * sin (PI / 8))))
    with (- (24 * sin (PI / 8)) * cos theta) by ring.
  replace (u + 12 * (cos theta * cos (PI / 8) - sin theta * sin (PI / 8))
           - (u + 12 * (cos theta * cos (PI / 8) + sin theta * sin (PI / 8))))
    with (- (24 * sin (PI / 8)) * sin theta) by ring.
  rewrite Rplus_comm, pythagoras, <- Rsqr_neg.
  apply sqrt_Rsqr.
  assert (0 < sin (PI / 8)); [| lra].
  pose proof PI_RGT_0. apply sin_gt_0; lra.
Qed.

(** X6.  On a canvas of non-negative width and height, the view that
    anchors the arrow at the canvas centre draws the end of the shaft
    inside the canvas, at most a quarter of each side away from the
    centre. *)
Theorem centred_arrow_inside_canvas (arrow : ArrowSelection) (w h : R) :
  0 <= w -> 0 <= h ->
  exists tip left right,
    drawOverlay_center (Some arrow) w h
    = strokes (mkPoint (w / 2) (h / 2)) tip left right
    /\ Rabs (x tip - w / 2) <= w / 4 /\ Rabs (y tip - h / 2) <= h / 4
    /\ 0 <= x tip <= w /\ 0 <= y tip <= h.
Proof.
  intros Hw Hh. destruct (lengthPx_bounds w h Hw Hh) as (HL0 & HLw & HLh).
  eexists _, _, _. split; [apply draw_arrow_strokes |]. cbn [x y].
  set (theta := bearingDeg arrow * PI / 180).
  set (L := lengthPx w h) in *.
  pose proof (SIN_bound theta) as Hs. pose proof (COS_bound theta) as Hc.
  assert (Hx : - (w / 4) <= L * sin theta <= w / 4) by (split; nra).
  assert (Hy : - (h / 4) <= L * cos theta <= h / 4) by (split; nra).
  repeat split; try (apply Rabs_le); lra.
Qed.

Lemma centred_arrow_inside_canvas_witness :
  exists tip left right,
    drawOverlay_center (Some (mkArrow 18 73 45 150)) 800 600
    = strokes (mkPoint (800 / 2) (600 / 2)) tip left right
    /\ Rabs (x tip - 800 / 2) <= 800 / 4 /\ Rabs (y tip - 600 / 2) <= 600 / 4
    /\ 0 <= x tip <= 800 /\ 0 <= y tip <= 600.
Proof.
  apply (centred_arrow_inside_canvas (mkArrow 18 73 45 150) 800 600); lra.
Defined.

End GeometryMore.

(** ** More on the history: runs of the hook, other keys, bad entries *)

Module HistoryMore.
Import Js Storage UseHistory JsFacts HistoryFacts HookRuns.

(** An entry that JSON text gives back as it is. *)
Lemma of_json_defined (j : Json) : of_json j <> VUndefined.
Proof. now destruct j. Qed.

Lemma loaded_defined (w : Window) (l : list JsVal) :
  loadHistory w = Ok l -> Forall (fun v => v <> VUndefined) l.
Proof.
  intros H. destruct (loadHistory_json w l H) as (js & ->).
  apply List.Forall_forall. intros v Hv. apply in_map_iff in Hv as (j & <- & _).
  apply of_json_defined.
Qed.

Lemma filterM_sublist (p : JsVal -> Res bool) (l l' : list JsVal) :
  filterM p l = Ok l' -> forall v, In v l' -> In v l.
Proof.
  revert l'. induction l as [| a l IH]; intros l'.
  - intros [= <-] v [].
  - cbn [filterM]. destruct (p a) as [b | e]; [| discriminate].
    destruct (filterM p l) as [r |]; [| discriminate].
    intros [= <-] v Hv. destruct b.
    + destruct Hv as [-> | Hv]; [now left | right; now apply (IH r)].
    + right. now apply (IH r).
Qed.

(** One operation of the hook in a browser leaves the storage in step
    with the list, and the window stays. *)
Lemma apply_in_step (op : Op) (st st' : State) (ls : gmap string string) :
  window st = Some ls -> apply op st = Ok st' ->
  in_step st' /\ exists ls', window st' = Some ls'.
Proof.
  intros Hw. destruct st as [prev w]. cbn [window] in Hw. subst w.
  assert (H : forall l, in_step (mkState l (saveHistory l (Some ls)))
                        /\ exists ls', window (mkState l (saveHistory l (Some ls))) = Some ls').
  { intros l. split; [apply load_save |]. unfold saveHistory. cbn [window]. eauto. }
  destruct op as [item | id |]; cbn [apply].
  - intros [= <-]. apply H.
  - unfold remove. cbn [items window].
    match goal with |- context [filterM ?p prev] => destruct (filterM p prev) as [next | e] end;
      [| discriminate].
    intros [= <-]. apply H.
  - intros [= <-]. apply H.
Qed.

Lemma run_in_step (ops : list Op) (st st' : State) (ls : gmap string string) :
  window st = Some ls -> in_step st -> run ops st = Ok st' -> in_step st'.
Proof.
  revert st ls. induction ops as [| op ops IH]; intros st ls Hw Hin.
  - now intros [= <-].
  - cbn [run]. destruct (apply op st) as [st1 |] eqn:E; [| discriminate].
    destruct (apply_in_step op st st1 ls Hw E) as (Hin1 & ls1 & Hw1).
    apply (IH st1 ls1 Hw1 Hin1).
Qed.

(** The entries of the list stay copies that JSON gives back, as long
    as the added ones are. *)
Lemma apply_stable (op : Op) (st st' : State) :
  (forall item, op = op_add item -> stored_copy item = item) ->
  Forall (fun v => stored_copy v = v) (items st) ->
  apply op st = Ok st' ->
  Forall (fun v => stored_copy v = v) (items st').
Proof.
  intros Hop Hst. destruct op as [item | id |]; cbn [apply].
  - intros [= <-]. cbn [add items]. constructor; [now apply Hop | exact Hst].
  - unfold remove.
    match goal with |- context [filterM ?p (items st)] =>
      destruct (filterM p (items st)) as [next | e] eqn:E end; [| discriminate].
    intros [= <-]. cbn [items]. apply List.Forall_forall. intros v Hv.
    apply (filterM_sublist _ _ _ E) in Hv.
    now apply (proj1 (List.Forall_forall _ _) Hst).
  - intros [= <-]. constructor.
Qed.

Lemma run_stable (ops : list Op) (st st' : State) :
  (forall item, In (op_add item) ops -> stored_copy item = item) ->
  Forall (fun v => stored_copy v = v) (items st) ->
  run ops st = Ok st' ->
  Forall (fun v => stored_copy v = v) (items st').
Proof.
  revert st. induction ops as [| op ops IH]; intros st Hops Hst.
  - now intros [= <-].
  - cbn [run]. destruct (apply op st) as [st1 |] eqn:E; [| discriminate].
    apply IH.
    + intros item Hi. apply Hops. now right.
    + apply (apply_stable op st st1); [| exact Hst | exact E].
      intros item ->. apply Hops. now left.
Qed.

Lemma map_stable (l : list JsVal) :
  Forall (fun v => stored_copy v = v) l -> map stored_copy l = l.
Proof. induction 1 as [| v l Hv _ IH]; [reflexivity |]. cbn [map]. now rewrite Hv, IH. Qed.

(** X7.  The history survives a reload.  In a browser, after the hook
    has mounted and whatever additions, removals and clearings have
    run, a hook that mounts anew on the storage starts from the list
    of the old one, each entry as JSON gives it back; where the added
    entries are values that JSON gives back unchanged, the new hook is
    in the very state of the old one. *)
Theorem history_survives_reload (ls : gmap string string) (ops : list Op)
    (st0 st' : State) :
  mount (init (Some ls)) = Ok st0 ->
  run ops st0 = Ok st' ->
  mount (init (window st')) = Ok (mkState (map stored_copy (items st')) (window st'))
  /\ ((forall item, In (op_add item) ops -> stored_copy item = item) ->
      mount (init (window st')) = Ok st').
Proof.
  intros Hm Hrun.
  assert (Hw0 : window st0 = Some ls).
  { unfold mount in Hm. cbn [init window] in Hm.
    destruct (loadHistory (Some ls)); [| discriminate]. now injection Hm as <-. }
  pose proof (mount_loaded _ _ Hm) as Hl0.
  assert (Hin0 : in_step st0).
  { unfold in_step. now rewrite (stored_copy_loaded _ _ Hl0). }
  pose proof (run_in_step ops st0 st' ls Hw0 Hin0 Hrun) as Hin.
  unfold in_step in Hin.
  assert (E : mount (init (window st'))
              = Ok (mkState (map stored_copy (items st')) (window st'))).
  { unfold mount. cbn [init window]. now rewrite Hin. }
  split; [exact E |].
  intros Hops. rewrite E.
  rewrite map_stable; [now destruct st' |].
  apply (run_stable ops st0 st' Hops); [| exact Hrun].
  apply List.Forall_forall. intros v Hv.
  pose proof (stored_copy_loaded _ _ Hl0) as Hc.
  clear - Hc Hv. revert Hc Hv. generalize (items st0) as l.
  induction l as [| a l IH]; [intros _ [] |].
  cbn [map]. intros [= Ha Hl] [-> | Hv]; [exact Ha | now apply IH].
Qed.

Lemma history_survives_reload_witness :
  let st0 := mkState [VObj [("id", VStr "a")]; VObj [("id", VStr "b")]]
                     (Some Samples.two_entries) in
  let st' := add (VObj [("id", VStr "c")]) st0 in
  mount (init (window st')) = Ok st'.
Proof.
  intros st0 st'.
  refine (proj2 (history_survives_reload Samples.two_entries
                   [op_add (VObj [("id", VStr "c")])] st0 st' _ _) _).
  - unfold mount. cbn [init window]. now rewrite two_entries_loaded.
  - reflexivity.
  - intros item [[= <-] | []]. reflexivity.
Defined.

(** X8.  The store and the hook write under their own key only: every
    other key of the storage keeps its text through [saveHistory],
    [clearHistory], [appendResult] and [removeResult], and through
    [add], [remove] and [clear] of the hook. *)
Theorem other_keys_untouched (ls : gmap string string) (k : string)
    (l : list JsVal) (item : JsVal) (id : string) :
  k <> KEY ->
  let kept (w : Window) :=
    match w with Some ls' => ls' !! k = ls !! k | None => False end in
  kept (saveHistory l (Some ls))
  /\ kept (clearHistory (Some ls))
  /\ (exists w', appendResult item (Some ls) = Ok w' /\ kept w')
  /\ (forall w', removeResult id (Some ls) = Ok w' -> kept w')
  /\ kept (window (add item (mkState l (Some ls))))
  /\ (forall st', remove id (mkState l (Some ls)) = Ok st' -> kept (window st'))
  /\ kept (window (clear (mkState l (Some ls)))).
Proof.
  intros Hk kept.
  assert (Hs : forall h, kept (saveHistory h (Some ls))).
  { intros h. unfold kept, saveHistory. apply lookup_insert_ne. congruence. }
  split; [apply Hs |]. split.
  { unfold kept, clearHistory. apply lookup_delete_ne. congruence. }
  split.
  { destruct (loadHistory_total (Some ls)) as (before & Hb).
    eexists. split; [apply (appendResult_loaded item before _ Hb) | apply Hs]. }
  split.
  { intros w'. unfold removeResult.
    destruct (loadHistory (Some ls)) as [loaded |]; [| discriminate].
    change (Ok loaded ≫= ?f) with (f loaded). cbv beta.
    match goal with |- context [filterM ?p loaded] =>
      destruct (filterM p loaded) as [next | e] end; [| discriminate].
    intros [= <-]. apply Hs. }
  split; [apply Hs |]. split; [| apply Hs].
  intros st'. unfold remove. cbn [items window].
  match goal with |- context [filterM ?p l] => destruct (filterM p l) as [next | e] end;
    [| discriminate].
  intros [= <-]. apply Hs.
Qed.

Lemma other_keys_untouched_witness :
  match saveHistory [] (Some {[ "theme" := "dark" ]}) with
  | Some ls' => ls' !! "theme" = ({[ "theme" := "dark" ]} : gmap string string) !! "theme"
  | None => False
  end.
Proof.
  refine (proj1 (other_keys_untouched {[ "theme" := "dark" ]} "theme" [] VNull "a" _)).
  discriminate.
Defined.

(** X9.  An addition over a storage that cannot be read replaces it:
    where the text under the key is not JSON or not an array,
    [appendResult] leaves the array of the new result alone, and the
    hook, mounted on that storage, has the new entry alone after
    [add]. *)
Theorem append_replaces_unreadable (ls : gmap string string) (raw : string)
    (item : JsVal) :
  ls !! KEY = Some raw ->
  (forall l, parse raw <> Some (JArr l)) ->
  (exists w',
      appendResult item (Some ls) = Ok w'
      /\ stored_text w' = JSON_stringify (VArr [item])
      /\ loadHistory w' = Ok [stored_copy item])
  /\ (exists st0,
        mount (init (Some ls)) = Ok st0
        /\ items (add item st0) = [item]
        /\ stored_text (window (add item st0)) = JSON_stringify (VArr [item])).
Proof.
  intros Hraw Hbad.
  assert (Hl : loadHistory (Some ls) = Ok []).
  { rewrite (loadHistory_text (Some ls) raw Hraw).
    destruct (parse raw) as [[| | | | l |] |]; try reflexivity. now destruct (Hbad l). }
  destruct (saveHistory_text ls [item]) as (text & Hs & _ & Ht).
  split.
  - eexists. split; [apply (appendResult_loaded item [] _ Hl) |].
    split; [now rewrite Hs, Ht | apply load_save].
  - eexists. split; [unfold mount; cbn [init window]; now rewrite Hl |].
    cbn [add items window]. split; [reflexivity | now rewrite Hs, Ht].
Qed.

Lemma append_replaces_unreadable_witness :
  exists w',
    appendResult (VObj [("id", VStr "c")]) (Some {[ KEY := "{oops" ]}) = Ok w'
    /\ stored_text w' = JSON_stringify (VArr [VObj [("id", VStr "c")]])
    /\ loadHistory w' = Ok [stored_copy (VObj [("id", VStr "c")])].
Proof.
  refine (proj1 (append_replaces_unreadable {[ KEY := "{oops" ]} "{oops"
                   (VObj [("id", VStr "c")]) _ _)).
  - reflexivity.
  - intros l. vm_compute. discriminate.
Defined.

Lemma keeps_iff (id : string) (v : JsVal) :
  id_of v <> None -> (keeps id v = true <-> id_of v <> Some (VStr id)).
Proof.
  unfold keeps. destruct (id_of v) as [i |]; [intros _ | intros H; now destruct H].
  destruct i; cbn [strict_neq_str]; try (split; [discriminate | reflexivity]).
  destruct (String.eqb s id) eqn:E; cbn [negb].
  - apply String.eqb_eq in E. subst s. split; [discriminate | intros H; now destruct H].
  - apply String.eqb_neq in E. split; [congruence | reflexivity].
Qed.

Lemma filter_keeps_twice (id : string) (l : list JsVal) :
  List.filter (keeps id) (List.filter (keeps id) l) = List.filter (keeps id) l.
Proof.
  induction l as [| v l IH]; [reflexivity |].
  cbn [List.filter]. destruct (keeps id v) eqn:E; [| exact IH].
  cbn [List.filter]. now rewrite E, IH.
Qed.

(** X10.  [remove] of the hook on a list of objects: the new list has
    exactly the entries whose [id] is not the given one, in their
    order, so every entry with that [id] goes and an [id] that no
    entry has leaves the list as it is; a second [remove] of the same
    [id] changes neither the list nor the storage. *)
Theorem remove_every_match (ls : gmap string string) (prev : list JsVal)
    (id : string) :
  Forall (fun v => id_of v <> None) prev ->
  exists st',
    remove id (mkState prev (Some ls)) = Ok st'
    /\ items st' = List.filter (keeps id) prev
    /\ (forall v, In v (items st') <-> In v prev /\ id_of v <> Some (VStr id))
    /\ (Forall (fun v => id_of v <> Some (VStr id)) prev -> items st' = prev)
    /\ remove id st' = Ok st'.
Proof.
  intros Hobj. eexists. split; [apply (remove_objects id prev _ Hobj) |].
  cbn [items]. split; [reflexivity |]. split; [| split].
  - intros v. rewrite filter_In. split.
    + intros [Hin Hk]. split; [exact Hin |].
      apply (keeps_iff id v); [| exact Hk].
      exact (proj1 (List.Forall_forall _ _) Hobj v Hin).
    + intros [Hin Hne]. split; [exact Hin |].
      apply (keeps_iff id v); [| exact Hne].
      exact (proj1 (List.Forall_forall _ _) Hobj v Hin).
  - intros Hnone. clear - Hobj Hnone.
    induction prev as [| v l IH]; [reflexivity |].
    apply List.Forall_cons_iff in Hobj as [Hv Hl]. apply List.Forall_cons_iff in Hnone as [Hn Hnl].
    cbn [List.filter]. rewrite (proj2 (keeps_iff id v Hv) Hn). now rewrite IH.
  - rewrite remove_objects.
    + rewrite filter_keeps_twice. f_equal. f_equal.
      unfold saveHistory. f_equal. apply insert_insert_eq.
    + apply List.Forall_forall. intros v Hv. apply filter_In in Hv as [Hv _].
      exact (proj1 (List.Forall_forall _ _) Hobj v Hv).
Qed.

Lemma remove_every_match_witness :
  exists st',
    remove "a" (mkState [VObj [("id", VStr "a")]; VObj [("id", VStr "b")];
                         VObj [("id", VStr "a")]] (Some ∅)) = Ok st'
    /\ items st' = List.filter (keeps "a")
                     [VObj [("id", VStr "a")]; VObj [("id", VStr "b")];
                      VObj [("id", VStr "a")]].
Proof.
  destruct (remove_every_match ∅ [VObj [("id", VStr "a")]; VObj [("id", VStr "b")];
                                  VObj [("id", VStr "a")]] "a")
    as (st' & H1 & H2 & _).
  - repeat constructor; discriminate.
  - exists st'. split; [exact H1 | exact H2].
Defined.

Lemma filterM_null (id : string) (l : list JsVal) :
  Forall (fun v => v <> VUndefined) l -> In VNull l ->
  filterM (fun r => i ← get_prop r "id"; Ok (strict_neq_str i id)) l
  = Throw (cannot_read "null" "id").
Proof.
  induction 1 as [| v l Hv _ IH]; [intros [] |].
  intros Hin. cbn [filterM].
  destruct v; try (now destruct Hv); try reflexivity;
    (destruct Hin as [Hin | Hin]; [discriminate Hin |]; rewrite (IH Hin); reflexivity).
Qed.

(** X11.  The store does not check the entries of the array that it
    loads.  Where the loaded array holds a [null], [removeResult]
    throws a TypeError on the read of its [id] and so does [remove] of
    the hook on that list, whatever the identifier; nothing is
    written. *)
Theorem remove_throws_on_null_entry (w : Window) (l : list JsVal) (id : string) :
  loadHistory w = Ok l ->
  In VNull l ->
  removeResult id w = Throw (TypeError "Cannot read properties of null (reading 'id')")
  /\ remove id (mkState l w)
     = Throw (TypeError "Cannot read properties of null (reading 'id')").
Proof.
  intros Hl Hin. pose proof (loaded_defined w l Hl) as Hdef.
  unfold removeResult, remove. rewrite Hl. cbn [items].
  change (Ok l ≫= ?f) with (f l). cbv beta.
  rewrite (filterM_null id l Hdef Hin). split; reflexivity.
Qed.

Lemma remove_throws_on_null_entry_witness :
  removeResult "a" (Some {[ KEY := dq "[{'id':'a'},null]" ]})
  = Throw (TypeError "Cannot read properties of null (reading 'id')").
Proof.
  refine (proj1 (remove_throws_on_null_entry (Some {[ KEY := dq "[{'id':'a'},null]" ]})
                   [VObj [("id", VStr "a")]; VNull] "a" _ _)).
  - vm_compute. reflexivity.
  - right. now left.
Defined.

(** X12.  The hook writes what the store would write: where the list of
    the hook is the stored one, [add] leaves the storage that
    [appendResult] leaves, and [remove] the storage that [removeResult]
    leaves, or both throw the same. *)
Theorem hook_agrees_with_store (st : State) (item : JsVal) (id : string) :
  loadHistory (window st) = Ok (items st) ->
  appendResult item (window st) = Ok (window (add item st))
  /\ removeResult id (window st) = (st' ← remove id st; Ok (window st')).
Proof.
  intros Hl. split.
  - now rewrite (appendResult_loaded item (items st) _ Hl).
  - unfold removeResult, remove. rewrite Hl.
    change (Ok (items st) ≫= ?f) with (f (items st)). cbv beta.
    match goal with |- context [filterM ?p (items st)] =>
      destruct (filterM p (items st)) as [next | e] end; reflexivity.
Qed.

Lemma hook_agrees_with_store_witness :
  let st := mkState [VObj [("id", VStr "a")]; VObj [("id", VStr "b")]]
                    (Some Samples.two_entries) in
  appendResult VNull (window st) = Ok (window (add VNull st)).
Proof.
  intros st.
  exact (proj1 (hook_agrees_with_store st VNull "a" two_entries_loaded)).
Defined.

(** X13.  [clearHistory] removes the key: a load then gives the empty
    list, an addition then stores the new result alone, and a second
    [clearHistory] changes nothing; where there is no window it does
    nothing. *)
Theorem clearHistory_empties (ls : gmap string string) (item : JsVal) :
  stored_text (clearHistory (Some ls)) = None
  /\ loadHistory (clearHistory (Some ls)) = Ok []
  /\ (exists w',
        appendResult item (clearHistory (Some ls)) = Ok w'
        /\ loadHistory w' = Ok [stored_copy item])
  /\ clearHistory (clearHistory (Some ls)) = clearHistory (Some ls)
  /\ clearHistory None = None.
Proof.
  assert (Ht : stored_text (clearHistory (Some ls)) = None) by apply lookup_delete_eq.
  assert (Hl : loadHistory (clearHistory (Some ls)) = Ok []).
  { unfold clearHistory, loadHistory. cbn [stored_text clearHistory] in Ht.
    now rewrite Ht. }
  split; [exact Ht |]. split; [exact Hl |]. split; [| split; [| reflexivity]].
  - eexists. split; [apply (appendResult_loaded item [] _ Hl) |]. apply load_save.
  - unfold clearHistory. f_equal. apply delete_id, lookup_delete_eq.
Qed.

End HistoryMore.

(** ** More on the route: images, data URLs and the mock caption *)

Module RouteMore.
Import Js Route JsFacts RouteFacts Texts.
#[local] Arguments append : simpl nomatch.

(** *** The image of an answer of the service *)

Lemma first_image_image (r : GenResponse) (m d : string) :
  first_image r = Some (m, d) -> String.prefix "image/" m = true /\ d <> "".
Proof.
  unfold first_image.
  destruct (candidates r) as [[| c cs] |]; try discriminate.
  destruct (content c) as [ct |]; [| discriminate].
  destruct (parts ct) as [ps |]; [| discriminate].
  destruct (find is_image_part ps) as [p |] eqn:Ef; [| discriminate].
  apply find_some in Ef as [_ Hp]. unfold is_image_part in Hp.
  destruct (inlineData p) as [i |]; [| discriminate].
  destruct (mimeType i) as [m' |]; [| discriminate].
  unfold truthy. destruct (data i) as [d' |]; [| discriminate].
  destruct (String.eqb d' "") eqn:Ed; [discriminate |].
  intros [= <- <-]. split; [exact Hp |]. now apply String.eqb_neq.
Qed.

Lemma sdk_image_image (w : World) (model : string) (req : Request) (m d : string) :
  sdk_image w model req = Some (m, d) -> String.prefix "image/" m = true /\ d <> "".
Proof.
  unfold sdk_image.
  destruct (generateContent w model (request_parts req) "image/png") as [e | r];
    [discriminate | apply first_image_image].
Qed.

Lemma rest_image_image (w : World) (apiKey model : string) (req : Request)
    (m d : string) :
  rest_image w apiKey model req = Some (m, d) ->
  String.prefix "image/" m = true /\ d <> "".
Proof.
  unfold rest_image.
  destruct (fetch w (rest_url model apiKey) (rest_body req)) as [e | status [r | e]];
    try discriminate.
  destruct ((200 <=? status)%N && (status <=? 299)%N);
    [apply first_image_image | discriminate].
Qed.

(** X14.  With a credential, an answer with status 200 carries the
    identifier that [crypto.randomUUID()] gave, the configured model
    and a data URL [data:<type>;base64,<payload>] whose type starts
    with [image/] and whose payload is not empty, whatever the two
    services return. *)
Theorem answer_carries_an_image (env : Env) (w : World) (req : Request)
    (apiKey id url model : string) :
  credential env = Some apiKey ->
  fst (generate env w req) = Json200 id url model ->
  id = randomUUID w /\ model = DEFAULT_MODEL env
  /\ exists m d, url = data_url m d /\ String.prefix "image/" m = true /\ d <> "".
Proof.
  intros Hkey. rewrite (generate_with_key env w req apiKey Hkey).
  destruct (sdk_image w (DEFAULT_MODEL env) req) as [[m d] |] eqn:Es.
  - cbn [fst]. intros [= <- <- <-]. repeat split.
    exists m, d. split; [reflexivity | apply (sdk_image_image _ _ _ _ _ Es)].
  - destruct (rest_image w apiKey (DEFAULT_MODEL env) req) as [[m d] |] eqn:Er.
    + cbn [fst]. intros [= <- <- <-]. repeat split.
      exists m, d. split; [reflexivity | apply (rest_image_image _ _ _ _ _ _ Er)].
    + discriminate.
Qed.

Lemma answer_carries_an_image_witness :
  exists m d,
    "data:image/png;base64,iVBOR" = data_url m d
    /\ String.prefix "image/" m = true /\ d <> "".
Proof.
  refine (proj2 (proj2 (answer_carries_an_image Samples.with_key Samples.world_rest_image
                          Samples.harbour_request "secret" "id-2"
                          "data:image/png;base64,iVBOR"
                          (DEFAULT_MODEL Samples.with_key) _ _))).
  - reflexivity.
  - rewrite (generate_with_key Samples.with_key Samples.world_rest_image
               Samples.harbour_request "secret" eq_refl).
    reflexivity.
Defined.

Lemma find_first (A : Type) (f : A -> bool) (l1 l2 : list A) (a : A) :
  forallb (fun x => negb (f x)) l1 = true -> f a = true ->
  find f (l1 ++ a :: l2) = Some a.
Proof.
  intros H Ha. induction l1 as [| b l1 IH]; cbn [find app].
  - now rewrite Ha.
  - cbn [forallb] in H. apply andb_prop in H as [Hb Hl].
    apply Bool.negb_true_iff in Hb. rewrite Hb. now apply IH.
Qed.

(** X15.  The handler looks at the first candidate only and, in it, at
    the first part whose media type starts with [image/]: the image of
    the response is the payload of that part where it is not empty, and
    none otherwise, whatever the later parts and the later candidates
    hold. *)
Theorem first_image_first_match_only (cs : list Candidate)
    (ps1 ps2 : list RespPart) (p : RespPart) :
  forallb (fun q => negb (is_image_part q)) ps1 = true ->
  is_image_part p = true ->
  first_image
    (mkGenResponse
       (Some (mkCandidate (Some (mkContent (Some (ps1 ++ p :: ps2)))) :: cs)))
  = match inlineData p with
    | Some i =>
        match mimeType i, truthy (data i) with
        | Some m, Some d => Some (m, d)
        | _, _ => None
        end
    | None => None
    end.
Proof.
  intros H1 Hp. unfold first_image. cbn [candidates content parts].
  now rewrite (find_first _ is_image_part ps1 ps2 p H1 Hp).
Qed.

Lemma first_image_first_match_only_witness :
  first_image
    (mkGenResponse
       (Some (mkCandidate
                (Some (mkContent
                         (Some ([mkRespPart None]
                                ++ mkRespPart (Some (mkInline (Some "image/png") (Some "")))
                                :: [mkRespPart
                                      (Some (mkInline (Some "image/png") (Some "iVBOR")))]))))
              :: [mkCandidate
                    (Some (mkContent
                             (Some [mkRespPart
                                      (Some (mkInline (Some "image/png")
                                                      (Some "iVBOR")))])))])))
  = None.
Proof.
  exact (first_image_first_match_only _ [mkRespPart None] _
           (mkRespPart (Some (mkInline (Some "image/png") (Some "")))) eq_refl eq_refl).
Defined.

(** *** Data URLs *)

Lemma expect_app (lit s : string) : expect lit (lit +:+ s) = Some s.
Proof.
  induction lit as [| c lit IH]; [reflexivity |].
  cbn [expect append]. now rewrite Ascii.eqb_refl.
Qed.

Lemma expect_inv (lit s r : string) : expect lit s = Some r -> s = lit +:+ r.
Proof.
  revert s. induction lit as [| c lit IH]; intros s; cbn [expect append].
  - now intros [= ->].
  - destruct s as [| c' s]; [discriminate |].
    destruct (Ascii.eqb c c') eqn:E; [| discriminate].
    apply Ascii.eqb_eq in E. subst c'. intros H. now rewrite (IH s H).
Qed.

Lemma until_semicolon_app (m r : string) :
  contains ";" m = false ->
  until_semicolon (m +:+ String ";" r) = (m, String ";" r).
Proof.
  induction m as [| c m IH]; [reflexivity |].
  cbn [contains append until_semicolon]. intros H.
  apply Bool.orb_false_iff in H as [Hc Hm].
  rewrite Hc, (IH Hm). reflexivity.
Qed.

Lemma until_semicolon_inv (s m r : string) :
  until_semicolon s = (m, r) -> s = m +:+ r /\ contains ";" m = false.
Proof.
  revert m r. induction s as [| c s IH]; intros m r; cbn [until_semicolon].
  - intros [= <- <-]. now split.
  - destruct (Ascii.eqb c ";") eqn:E.
    + intros [= <- <-]. now split.
    + destruct (until_semicolon s) as [m' r'] eqn:Eu.
      intros [= <- <-]. destruct (IH m' r' eq_refl) as [-> Hm].
      split; [reflexivity |]. cbn [contains]. now rewrite E, Hm.
Qed.

(** X16.  What [dataUrlToPart] accepts: a text matches exactly when it
    is [data:<type>;base64,<payload>] with a type that is not empty and
    holds no semicolon and a payload without line break, and the match
    gives back that type and that payload. *)
Theorem data_url_match (u m d : string) :
  match_data_url u = Some (m, d)
  <-> u = data_url m d /\ m <> "" /\ contains ";" m = false /\ no_line_break d = true.
Proof.
  unfold match_data_url, data_url. split.
  - destruct (expect "data:" u) as [r |] eqn:E1; [| discriminate].
    apply expect_inv in E1. subst u.
    destruct (until_semicolon r) as [m' r1] eqn:E2.
    apply until_semicolon_inv in E2 as [-> Hm].
    destruct (String.eqb m' "") eqn:E3; [discriminate |].
    destruct (expect ";base64," r1) as [d' |] eqn:E4; [| discriminate].
    apply expect_inv in E4. subst r1.
    destruct (no_line_break d') eqn:E5; [| discriminate].
    intros [= <- <-]. split; [reflexivity |].
    split; [now apply String.eqb_neq | now split].
  - intros (-> & Hm & Hs & Hd).
    rewrite expect_app.
    change (";base64," +:+ d) with (String ";" ("base64," +:+ d)).
    rewrite (until_semicolon_app m _ Hs).
    apply String.eqb_neq in Hm. rewrite Hm.
    change (String ";" ("base64," +:+ d)) with (";base64," +:+ d).
    now rewrite expect_app, Hd.
Qed.

Lemma data_url_match_witness :
  match_data_url "data:image/jpeg;base64,AAAA" = Some ("image/jpeg", "AAAA").
Proof.
  apply (proj2 (data_url_match "data:image/jpeg;base64,AAAA" "image/jpeg" "AAAA")).
  repeat split. discriminate.
Defined.

(** X17.  The image part of a request to the service, by the snapshot
    of the request: none without snapshot or with the empty one; the
    type and the payload of a snapshot that is a data URL; and for any
    other text an image part of type [image/jpeg] with an empty
    payload. *)
Theorem snapshot_part (req : Request) :
  let text := text_part (buildContextText (prompt req) (arrow req) (Some (map req))) in
  (mapSnapshotDataUrl req = None \/ mapSnapshotDataUrl req = Some "" ->
   request_parts req = [text])
  /\ (forall m d,
        mapSnapshotDataUrl req = Some (data_url m d) ->
        m <> "" -> contains ";" m = false -> no_line_break d = true ->
        request_parts req = [text; inline_part m d])
  /\ (forall u,
        mapSnapshotDataUrl req = Some u -> u <> "" -> match_data_url u = None ->
        request_parts req = [text; inline_part "image/jpeg" ""]).
Proof.
  intros text. unfold request_parts. fold text. split; [| split].
  - intros [-> | ->]; reflexivity.
  - intros m d -> Hm Hs Hd.
    assert (Hu : truthy (Some (data_url m d)) = Some (data_url m d)) by reflexivity.
    rewrite Hu. unfold dataUrlToPart.
    now rewrite (proj2 (data_url_match (data_url m d) m d)).
  - intros u -> Hu Hno. unfold truthy.
    apply String.eqb_neq in Hu. rewrite Hu. unfold dataUrlToPart. now rewrite Hno.
Qed.

Lemma snapshot_part_witness :
  request_parts Samples.harbour_request
  = [text_part (buildContextText (prompt Samples.harbour_request)
                  (arrow Samples.harbour_request) (Some (map Samples.harbour_request)));
     inline_part "image/jpeg" "AAAA"].
Proof.
  refine (proj1 (proj2 (snapshot_part Samples.harbour_request))
            "image/jpeg" "AAAA" eq_refl _ eq_refl eq_refl).
  discriminate.
Defined.

(** *** The caption of the mock image *)

Lemma contains_app (c : ascii) (a b : string) :
  contains c (a +:+ b) = contains c a || contains c b.
Proof.
  induction a as [| x a IH]; [reflexivity |].
  cbn [append contains]. now rewrite IH, Bool.orb_assoc.
Qed.

Lemma replace_all_removes (c : ascii) (by_ s : string) :
  contains c by_ = false -> contains c (replace_all c by_ s) = false.
Proof.
  intros Hby. induction s as [| a s IH]; [reflexivity |].
  cbn [replace_all]. destruct (Ascii.eqb a c) eqn:E.
  - now rewrite contains_app, Hby, IH.
  - cbn [contains]. now rewrite E, IH.
Qed.

Lemma replace_all_adds_none (x c : ascii) (by_ s : string) :
  contains x by_ = false -> contains x s = false ->
  contains x (replace_all c by_ s) = false.
Proof.
  intros Hby. induction s as [| a s IH]; [reflexivity |].
  cbn [contains replace_all]. intros H. apply Bool.orb_false_iff in H as [Ha Hs].
  destruct (Ascii.eqb a c).
  - now rewrite contains_app, Hby, IH.
  - cbn [contains]. now rewrite Ha, IH.
Qed.

Lemma slice0_contains (x : ascii) (n : nat) (s : string) :
  contains x s = false -> contains x (slice0 n s) = false.
Proof.
  revert s. induction n as [| n IH]; intros [| a s]; try reflexivity.
  cbn [contains slice0]. intros H. apply Bool.orb_false_iff in H as [Ha Hs].
  now rewrite Ha, IH.
Qed.

Lemma slice0_length (n : nat) (s : string) : String.length (slice0 n s) <= n.
Proof.
  revert s. induction n as [| n IH]; intros [| a s]; cbn [slice0 String.length]; try lia.
  specialize (IH s). lia.
Qed.

(** X18.  The caption that the mock image shows holds at most 90
    characters and neither [<] nor [>], whatever the prompt: no prompt
    opens or closes an element of the image. *)
Theorem mock_caption_bounded (p : string) :
  let caption := slice0 90 (escaped p) in
  synthMockImage (Some p)
  = Ok ("data:image/svg+xml;base64," +:+ base64 (utf8 (mock_svg caption)))
  /\ String.length caption <= 90
  /\ contains "<" caption = false
  /\ contains ">" caption = false.
Proof.
  intros caption. split; [reflexivity |]. split; [apply slice0_length |].
  unfold caption, escaped. split; apply slice0_contains.
  - apply replace_all_adds_none; [reflexivity |]. now apply replace_all_removes.
  - now apply replace_all_removes.
Qed.

(** *** The two modes and the blank caption *)

Lemma blank_prompt_parts (a : option Types.ArrowSelection)
    (m : Types.MapStateSnapshot) (u : option string) :
  request_parts (mkRequest None a m u) = request_parts (mkRequest (Some "") a m u).
Proof. reflexivity. Qed.

(** X19.  With a credential a request without prompt is served as the
    request with the empty prompt: the same calls leave the route with
    the same answer, and the answer is never the TypeError of the mock
    mode. *)
Theorem blank_prompt_with_credential (env : Env) (w : World)
    (a : option Types.ArrowSelection) (m : Types.MapStateSnapshot)
    (u : option string) (apiKey : string) :
  credential env = Some apiKey ->
  generate env w (mkRequest None a m u) = generate env w (mkRequest (Some "") a m u)
  /\ fst (generate env w (mkRequest None a m u))
     <> Error500 "Cannot read properties of undefined (reading 'replace')".
Proof.
  intros Hkey.
  rewrite !(generate_with_key env w _ apiKey Hkey).
  unfold sdk_image, rest_image, rest_body.
  rewrite <- !blank_prompt_parts. split; [reflexivity |].
  destruct (generateContent w (DEFAULT_MODEL env) _ "image/png") as [e | r].
  - destruct (fetch w _ _) as [e' | status [r | e']]; try discriminate.
    destruct ((200 <=? status)%N && (status <=? 299)%N); [| discriminate].
    destruct (first_image r) as [[m' d] |]; discriminate.
  - destruct (first_image r) as [[m' d] |]; [discriminate |].
    destruct (fetch w _ _) as [e' | status [r' | e']]; try discriminate.
    destruct ((200 <=? status)%N && (status <=? 299)%N); [| discriminate].
    destruct (first_image r') as [[m' d] |]; discriminate.
Qed.

Lemma blank_prompt_with_credential_witness :
  generate Samples.with_key Samples.world_no_image
    (mkRequest None None Samples.map_pune None)
  = generate Samples.with_key Samples.world_no_image
      (mkRequest (Some "") None Samples.map_pune None).
Proof.
  exact (proj1 (blank_prompt_with_credential Samples.with_key Samples.world_no_image
                  None Samples.map_pune None "secret" eq_refl)).
Defined.

(** X20.  The handler never rejects: for every environment, every
    behaviour of the two services and every request it returns a
    response, and the calls logged before it ran stay in front of its
    own. *)
Theorem POST_always_answers (env : Env) (w : World) (req : Request)
    (log : list Call) :
  exists r calls, POST env w req log = (Ok r, log ++ calls) /\ length calls <= 2.
Proof.
  unfold POST, try_catchE.
  destruct (truthy (or_else (GOOGLE_API_KEY env) (GEMINI_API_KEY env))) as [apiKey |].
  - unfold mbind, Eff_bind, bindE. rewrite sdk_path_run.
    destruct (answer_of w (DEFAULT_MODEL env) (sdk_image w (DEFAULT_MODEL env) req))
      as [answer |].
    + eexists _, [_]. split; [reflexivity | simpl; lia].
    + rewrite rest_run.
      destruct (answer_of w (DEFAULT_MODEL env)
                  (rest_image w apiKey (DEFAULT_MODEL env) req)) as [answer |].
      * eexists _, [_; _]. rewrite <- List.app_assoc. split; [reflexivity | simpl; lia].
      * eexists _, [_; _]. rewrite <- List.app_assoc. split; [reflexivity | simpl; lia].
  - unfold mbind, Eff_bind, bindE, lift.
    destruct (synthMockImage (prompt req)) as [dataUrl | e].
    + eexists _, []. rewrite List.app_nil_r. split; [reflexivity | simpl; lia].
    + eexists _, []. rewrite List.app_nil_r. split; [reflexivity | simpl; lia].
Qed.

End RouteMore.

(** ** The views: events, [generate] and the route behind it *)

Module ViewFacts.
Import Js JsFacts RouteFacts.

(** *** The sliders and the arrow *)

Lemma handle_follows (e : Interaction.Event) (st : Interaction.State) :
  Interaction.is_tweak e = false ->
  Interaction.arrow_follows_sliders st ->
  Interaction.arrow_follows_sliders (Interaction.handle e st).
Proof.
  intros He. destruct st as [p g [a |] b l m]; destruct e as [la lo | m' | v | v | t | | r];
    try discriminate He; unfold Interaction.arrow_follows_sliders;
    try destruct m; cbn; intuition.
Qed.

(** X21.  As long as no history entry is taken up with [Tweak], the
    arrow carries the values that the two sliders show: from a state
    where it does, and so from the initial one, every run of clicks,
    mode changes, slider moves, caption edits and clearings leaves an
    arrow, if any, with the bearing and the length of the sliders. *)
Theorem arrow_follows_the_sliders (es : list Interaction.Event)
    (st : Interaction.State) :
  forallb (fun e => negb (Interaction.is_tweak e)) es = true ->
  Interaction.arrow_follows_sliders st ->
  Interaction.arrow_follows_sliders (Interaction.handle_all es st).
Proof.
  unfold Interaction.handle_all. revert st.
  induction es as [| e es IH]; intros st Hes Hst; [exact Hst |].
  cbn [forallb] in Hes. apply andb_prop in Hes as [He Hes].
  apply Bool.negb_true_iff in He.
  cbn [fold_left]. apply IH; [exact Hes |]. now apply handle_follows.
Qed.

Lemma arrow_follows_the_sliders_witness :
  Interaction.arrow_follows_sliders
    (Interaction.handle_all
       [Interaction.SlideBearing (Finite 90 0);
        Interaction.Click (Finite 185 (-1)) (Finite 738 (-1));
        Interaction.SlideLength (Finite 200 0)]
       Interaction.initial).
Proof.
  apply (arrow_follows_the_sliders _ Interaction.initial).
  - reflexivity.
  - exact I.
Defined.

Lemma handle_in_pan (e : Interaction.Event) (st : Interaction.State) :
  Interaction.mode st = Interaction.pan ->
  Interaction.stays_in_pan e = true ->
  Interaction.mode (Interaction.handle e st) = Interaction.pan
  /\ Interaction.position (Interaction.handle e st) = Interaction.position st.
Proof.
  destruct st as [p g [a |] b l m]; cbn [Interaction.mode]; intros ->;
    destruct e as [la lo | [|] | v | v | t | | r]; try discriminate; intros _;
    split; reflexivity.
Qed.

(** X22.  In pan mode the map takes no arrow: while the mode stays
    [pan], clicks on the map, slider moves and caption edits leave the
    arrow where it stood, and leave none where there was none. *)
Theorem pan_mode_keeps_the_arrow_in_place (es : list Interaction.Event)
    (st : Interaction.State) :
  Interaction.mode st = Interaction.pan ->
  forallb Interaction.stays_in_pan es = true ->
  Interaction.position (Interaction.handle_all es st) = Interaction.position st
  /\ Interaction.mode (Interaction.handle_all es st) = Interaction.pan
  /\ Interaction.dragPan (Interaction.handle_all es st) = true.
Proof.
  unfold Interaction.handle_all. revert st.
  induction es as [| e es IH]; intros st Hm Hes.
  - cbn [fold_left]. unfold Interaction.dragPan. now rewrite Hm.
  - cbn [forallb] in Hes. apply andb_prop in Hes as [He Hes].
    destruct (handle_in_pan e st Hm He) as [Hm' Hp'].
    cbn [fold_left]. rewrite <- Hp'. now apply IH.
Qed.

Lemma pan_mode_keeps_the_arrow_in_place_witness :
  Interaction.position
    (Interaction.handle_all
       [Interaction.Click (Finite 185 (-1)) (Finite 738 (-1));
        Interaction.SlideBearing (Finite 90 0)]
       (Interaction.setMode Interaction.pan Interaction.initial))
  = Interaction.position (Interaction.setMode Interaction.pan Interaction.initial).
Proof.
  refine (proj1 (pan_mode_keeps_the_arrow_in_place _
                   (Interaction.setMode Interaction.pan Interaction.initial) _ _));
    reflexivity.
Defined.

(** *** [generate] of the view with the optional caption *)

(** X23.  What one run of [generate] can do.  Without arrow it does
    nothing.  Otherwise the flag [isGenerating] is off again at the end
    and caption, arrow, sliders and mode are as before; at most one
    request leaves the view; the history is either untouched or has
    one new entry in front, and it is untouched whenever the alert is
    shown; and while the map is not mounted there is neither a
    request nor an alert. *)
Theorem generate_outcome (sur : Interaction.Surroundings)
    (st : Interaction.State) (h : UseHistory.State) :
  let o := Interaction.generate sur st h in
  (Interaction.arrow st = None -> o = Interaction.mkOutcome st h false [])
  /\ (Interaction.arrow st <> None ->
      Interaction.view o = Interaction.setIsGenerating false st)
  /\ (length (Interaction.sent o) <= 1)%nat
  /\ (Interaction.alerted o = true -> Interaction.history o = h)
  /\ (Interaction.history o = h
      \/ exists result,
           Interaction.history o = UseHistory.add result h
           /\ Interaction.alerted o = false
           /\ length (Interaction.sent o) = 1%nat)
  /\ (Interaction.map sur = None ->
      Interaction.sent o = [] /\ Interaction.alerted o = false
      /\ Interaction.history o = h).
Proof.
  intros o. subst o. unfold Interaction.generate.
  destruct (Interaction.arrow st) as [a |] eqn:Ea.
  2:{ split; [reflexivity |]. split; [intros H; now destruct H |].
      cbn. split; [lia |]. split; [reflexivity |]. split; [now left |]. now split. }
  split; [discriminate |].
  unfold Interaction.generate_body.
  destruct (Interaction.map sur) as [mp |]; cbn [Interaction.snapshotMapState].
  2:{ cbn. split; [intros _; now destruct st |]. split; [lia |].
      split; [reflexivity |]. split; [now left |]. now split. }
  assert (Hv : forall s : Interaction.State,
             s = st ->
             Interaction.setIsGenerating false (Interaction.setIsGenerating true s)
             = Interaction.setIsGenerating false st).
  { intros s ->. now destruct st. }
  destruct (Interaction.exported sur) as [u | e].
  2:{ cbn. split; [intros _; now apply Hv |]. split; [lia |].
      split; [reflexivity |]. split; [now left |]. discriminate. }
  match goal with |- context [Interaction.api sur ?p] =>
    destruct (Interaction.api sur p) as [e | status json] end.
  { cbn. split; [intros _; now apply Hv |]. split; [lia |].
    split; [reflexivity |]. split; [now left |]. discriminate. }
  destruct (negb ((200 <=? status)%N && (status <=? 299)%N)).
  { cbn. split; [intros _; now apply Hv |]. split; [lia |].
    split; [reflexivity |]. split; [now left |]. discriminate. }
  destruct json as [data | e].
  2:{ cbn. split; [intros _; now apply Hv |]. split; [lia |].
      split; [reflexivity |]. split; [now left |]. discriminate. }
  change (Ok data ≫= ?f) with (f data). cbv beta.
  match goal with |- context [Interaction.result_object ?p data ?u ?n] =>
    destruct (Interaction.result_object p data u n) as [result | e] end.
  - cbn. split; [intros _; now apply Hv |]. split; [lia |].
    split; [discriminate |]. split; [| discriminate].
    right. eexists. repeat split.
  - cbn. split; [intros _; now apply Hv |]. split; [lia |].
    split; [reflexivity |]. split; [now left |]. discriminate.
Qed.

Lemma generate_outcome_witness :
  Interaction.generate
    (Interaction.mkSurroundings None (Ok None) (fun _ => Interaction.ApiThrows (Error "offline"))
       "id-9" (Finite 0 0))
    Interaction.initial (UseHistory.init None)
  = Interaction.mkOutcome Interaction.initial (UseHistory.init None) false [].
Proof.
  exact (proj1 (generate_outcome
                  (Interaction.mkSurroundings None (Ok None)
                     (fun _ => Interaction.ApiThrows (Error "offline")) "id-9" (Finite 0 0))
                  Interaction.initial (UseHistory.init None)) eq_refl).
Defined.

(** *** The views in front of the route without credential *)

Lemma parse_stringify_object (v : JsVal) (j : Json) :
  toJSON v = Some j -> JSON_parse (item_text (JSON_stringify v)) = Ok (of_json j).
Proof.
  intros H. unfold JSON_stringify. rewrite H. cbn [item_text].
  unfold JSON_parse. now rewrite parse_render.
Qed.

Lemma served_mock (env : Route.Env) (w : Route.World) (req : Route.Request)
    (p : string) :
  Route.credential env = None -> Route.prompt req = Some p ->
  Interaction.served env w req
  = Interaction.ApiAnswers 200
      (Ok (VObj [("id", VStr (Route.randomUUID w));
                 ("imageDataUrl", VStr (Route.mock_image p));
                 ("model", VStr "mock")])).
Proof.
  intros Hkey Hp. unfold Interaction.served.
  rewrite (mock_with_prompt env w req Hkey p Hp). cbn [fst Interaction.to_http].
  generalize (Route.mock_image p) as url. intros url.
  now rewrite (parse_stringify_object
                 (VObj [("id", VStr (Route.randomUUID w)); ("imageDataUrl", VStr url);
                        ("model", VStr "mock")])
                 (JObj [("id", JStr (Route.randomUUID w)); ("imageDataUrl", JStr url);
                        ("model", JStr "mock")]) eq_refl).
Qed.

Lemma served_mock_blank (env : Route.Env) (w : Route.World) (req : Route.Request) :
  Route.credential env = None -> Route.prompt req = None ->
  exists body, Interaction.served env w req = Interaction.ApiAnswers 500 body.
Proof.
  intros Hkey Hp. unfold Interaction.served.
  rewrite (mock_without_prompt env w req Hkey Hp). cbn [fst Interaction.to_http].
  eexists. reflexivity.
Qed.

Lemma second_view_result (payload : Route.Request) (id url uuid : string)
    (now : JsNum) :
  Interaction.result_object payload
    (VObj [("id", VStr id); ("imageDataUrl", VStr url); ("model", VStr "mock")])
    uuid now
  = Ok (VObj [("id", VStr id);
              ("createdAt", VNum now);
              ("request",
               VObj [("prompt", VStr (Interaction.or_empty (Route.prompt payload)));
                     ("arrow", Types.js_opt Types.js_arrow (Route.arrow payload));
                     ("map", Types.js_map (Route.map payload))]);
              ("mapSnapshotDataUrl",
               VStr (Interaction.or_empty (Route.mapSnapshotDataUrl payload)));
              ("imageDataUrl", VStr url);
              ("model", VStr "mock");
              ("safetyLabels", VUndefined)]).
Proof. reflexivity. Qed.

Lemma or_empty_some (x : string) : Interaction.or_empty (Some x) = x.
Proof.
  unfold Interaction.or_empty, truthy. destruct (String.eqb x "") eqn:E; [| reflexivity].
  apply String.eqb_eq in E. now subst x.
Qed.

Lemma truthy_some (x : string) : x <> "" -> truthy (Some x) = Some x.
Proof. intros H. unfold truthy. apply String.eqb_neq in H. now rewrite H. Qed.

Lemma first_view_result (p : string) (a : Types.ArrowSelection)
    (m : Types.MapStateSnapshot) (id url uuid u : string) (now : JsNum) :
  FirstView.result_object p (Some a) m
    (VObj [("id", VStr id); ("imageDataUrl", VStr url); ("model", VStr "mock")])
    uuid now u
  = Ok (Types.js_result
          (Types.mkPovResult id now (Types.mkPovRequest p a m) u url (Some "mock") None)).
Proof. reflexivity. Qed.

(** X24.  The view with the optional caption in front of the route
    without credential.  With an arrow set and the map mounted, a
    caption that is blank after trimming ends in the alert, with one
    request sent and the history untouched; any other caption puts one
    result in front of the history: the identifier that the route drew,
    the trimmed caption, the arrow, the map state, the exported
    snapshot, the mock image of the trimmed caption and the model
    [mock]. *)
Theorem second_view_on_mock_route (env : Route.Env) (w : Route.World)
    (sur : Interaction.Surroundings) (st : Interaction.State)
    (h : UseHistory.State) (a : Types.ArrowSelection)
    (mapState : Types.MapStateSnapshot) (u : option string) :
  Route.credential env = None ->
  Interaction.arrow st = Some a ->
  Interaction.snapshotMapState (Interaction.map sur) = Some mapState ->
  Interaction.exported sur = Ok u ->
  Interaction.api sur = Interaction.served env w ->
  let o := Interaction.generate sur st h in
  let caption := trim (Interaction.prompt st) in
  (caption = "" ->
   Interaction.alerted o = true /\ Interaction.history o = h
   /\ Interaction.sent o = [MapView.payload (Interaction.prompt st) a mapState u])
  /\ (caption <> "" ->
      Interaction.alerted o = false
      /\ Interaction.history o
         = UseHistory.add
             (Types.js_result
                (Types.mkPovResult (Route.randomUUID w) (Interaction.now sur)
                   (Types.mkPovRequest caption a mapState)
                   (match u with Some x => x | None => "" end)
                   (Route.mock_image caption) (Some "mock") None))
             h).
Proof.
  intros Hkey Ha Hmap Hexp Hapi o caption. subst o.
  unfold Interaction.generate. rewrite Ha.
  unfold Interaction.generate_body, Interaction.setIsGenerating.
  cbn [Interaction.prompt]. rewrite Hmap, Hexp, Hapi.
  set (payload := MapView.payload (Interaction.prompt st) a mapState u).
  assert (Hp : Route.prompt payload = truthy (Some caption)) by reflexivity.
  split.
  - intros Hblank. rewrite Hblank in Hp.
    destruct (served_mock_blank env w payload Hkey Hp) as (body & ->).
    cbv beta iota zeta. repeat split.
  - intros Hcaption. rewrite (truthy_some caption Hcaption) in Hp.
    rewrite (served_mock env w payload caption Hkey Hp).
    change (negb ((200 <=? 200)%N && (200 <=? 299)%N)) with false.
    cbv beta iota zeta.
    change (Ok ?d ≫= ?f) with (f d). cbv beta.
    rewrite second_view_result.
    change (Ok ?d ≫= ?f) with (f d). cbv beta iota zeta.
    cbn [Interaction.alerted Interaction.history].
    split; [reflexivity |]. f_equal.
    unfold Types.js_result, Types.js_request.
    cbn [Types.id Types.createdAt Types.request Types.mapSnapshotDataUrl
         Types.imageDataUrl Types.model Types.safetyLabels Types.prompt Types.arrow
         Types.map Types.js_opt].
    rewrite Hp, or_empty_some.
    replace (Interaction.or_empty (Route.mapSnapshotDataUrl payload))
      with (match u with Some x => x | None => "" end)
      by (symmetry; apply or_empty_some).
    reflexivity.
Qed.

Lemma second_view_on_mock_route_witness :
  let sur := Interaction.mkSurroundings
               (Some (Interaction.mkMap (Finite 12 0)
                        (Types.mkLatLng (Finite 185 (-1)) (Finite 738 (-1)))
                        (Types.mkBounds (Finite 186 (-1)) (Finite 185 (-1))
                           (Finite 739 (-1)) (Finite 738 (-1)))))
               (Ok (Some "data:image/jpeg;base64,AAAA"))
               (Interaction.served Samples.no_key Samples.world_down)
               "id-9" (Finite 1700000000000 0) in
  let st := Interaction.handle_all
              [Interaction.Click (Finite 185 (-1)) (Finite 738 (-1))]
              Interaction.initial in
  Interaction.alerted (Interaction.generate sur st (UseHistory.init None)) = true
  /\ Interaction.history (Interaction.generate sur st (UseHistory.init None))
     = UseHistory.init None.
Proof.
  intros sur st.
  destruct (second_view_on_mock_route Samples.no_key Samples.world_down sur st
              (UseHistory.init None)
              (Types.mkArrow (Finite 185 (-1)) (Finite 738 (-1)) (Finite 0 0) (Finite 150 0))
              (Types.mkMapState (Finite 12 0)
                 (Types.mkLatLng (Finite 185 (-1)) (Finite 738 (-1)))
                 (Types.mkBounds (Finite 186 (-1)) (Finite 185 (-1))
                    (Finite 739 (-1)) (Finite 738 (-1)))
                 Interaction.styleUrl)
              (Some "data:image/jpeg;base64,AAAA")
              eq_refl eq_refl eq_refl eq_refl eq_refl) as [Hblank _].
  destruct (Hblank eq_refl) as (H1 & H2 & _). now split.
Defined.

(** X25.  The view that asks for a caption in front of the route
    without credential.  A caption that is blank after trimming sends
    nothing and changes nothing.  Any other caption, with an arrow set
    and the map mounted, is answered with the mock image: no alert, one
    request with the trimmed caption and without snapshot, and one
    result in front of the history. *)
Theorem first_view_on_mock_route (env : Route.Env) (w : Route.World)
    (sur : Interaction.Surroundings) (st : FirstView.State)
    (h : UseHistory.State) (a : Types.ArrowSelection)
    (mapState : Types.MapStateSnapshot) (u : option string) :
  Route.credential env = None ->
  FirstView.arrow st = Some a ->
  FirstView.snapshotMapState (Interaction.map sur) = Some mapState ->
  Interaction.exported sur = Ok u ->
  Interaction.api sur = Interaction.served env w ->
  let o := FirstView.generate sur st h in
  let caption := trim (FirstView.prompt st) in
  (caption = "" -> o = FirstView.mkOutcome st h false [])
  /\ (caption <> "" ->
      FirstView.alerted o = false
      /\ FirstView.sent o = [Route.mkRequest (Some caption) (Some a) mapState None]
      /\ FirstView.history o
         = UseHistory.add
             (Types.js_result
                (Types.mkPovResult (Route.randomUUID w) (Interaction.now sur)
                   (Types.mkPovRequest caption a mapState)
                   (match u with Some x => x | None => "" end)
                   (Route.mock_image caption) (Some "mock") None))
             h).
Proof.
  intros Hkey Ha Hmap Hexp Hapi o caption. subst o.
  unfold FirstView.generate. fold caption. split.
  - intros ->. reflexivity.
  - intros Hcaption. apply String.eqb_neq in Hcaption. rewrite Hcaption.
    unfold FirstView.generate_body, FirstView.setIsGenerating.
    cbn [FirstView.prompt FirstView.arrow]. rewrite Hmap, Hexp, Hapi, Ha.
    fold caption.
    set (payload := FirstView.payload (FirstView.prompt st) (Some a) mapState).
    rewrite (served_mock env w payload caption Hkey eq_refl).
    change (negb ((200 <=? 200)%N && (200 <=? 299)%N)) with false.
    cbv beta iota zeta.
    change (Ok ?d ≫= ?f) with (f d). cbv beta.
    change (Ok ?d ≫= ?f) with (f d). cbv beta.
    rewrite first_view_result.
    change (Ok ?d ≫= ?f) with (f d). cbv beta iota zeta.
    repeat split.
Qed.

Lemma first_view_on_mock_route_witness :
  let sur := Interaction.mkSurroundings
               (Some (Interaction.mkMap (Finite 12 0)
                        (Types.mkLatLng (Finite 185 (-1)) (Finite 738 (-1)))
                        (Types.mkBounds (Finite 186 (-1)) (Finite 185 (-1))
                           (Finite 739 (-1)) (Finite 738 (-1)))))
               (Ok None)
               (Interaction.served Samples.no_key Samples.world_down)
               "id-9" (Finite 1700000000000 0) in
  let st := FirstView.mkView " harbour " false (Some Samples.arrow_north) in
  FirstView.alerted (FirstView.generate sur st (UseHistory.init None)) = false.
Proof.
  intros sur st.
  destruct (first_view_on_mock_route Samples.no_key Samples.world_down sur st
              (UseHistory.init None) Samples.arrow_north
              (Types.mkMapState (Finite 12 0)
                 (Types.mkLatLng (Finite 185 (-1)) (Finite 738 (-1)))
                 (Types.mkBounds (Finite 186 (-1)) (Finite 185 (-1))
                    (Finite 739 (-1)) (Finite 738 (-1)))
                 FirstView.styleUrl)
              None eq_refl eq_refl eq_refl eq_refl eq_refl) as [_ Hcaption].
  apply Hcaption. vm_compute. discriminate.
Defined.

End ViewFacts.
